(** * Electron native bindings: the next-tick dispatcher and the shell glue

    A shallow embedding of
    - [shell/common/api/electron_bindings.cc]: [EnvironmentDestroyed],
      [ActivateUVLoop] and [OnCallNextTick], the three members that touch
      [pending_next_ticks_] and the [call_next_tick_async_] handle; and of
      the memory figures [GetHeapStatistics], [GetBlinkMemoryInfo],
      [GetProcessMemoryInfo] and [DidReceiveMemoryDump];
    - [shell/common/api/atom_api_shell.cc]: the [ShortcutOperation] converter,
      [MoveItemToTrash], [OpenExternal] and [OnOpenExternalFinished].

    The spec calls the three dispatcher members [Unregister],
    [RegisterPending] and [OnWake]. *)

From Stdlib Require Import Ascii String.
From Stdlib Require Import List Arith NArith ZArith Bool Lia.
Import ListNotations.

(** ** electron_bindings.cc *)

Module Bindings.

(** [node::Environment*]: a raw pointer, compared by address. *)
Definition Environment := N.

(** The two data members the dispatcher works on.  [pending_next_ticks_] is
    the [std::list<node::Environment*>]; for the [uv_async_t] handle we keep
    what the claims observe of it, the number of [uv_async_send] calls made
    on it so far. *)
Record ElectronBindings := mkBindings {
  pending_next_ticks_ : list Environment;
  call_next_tick_async_ : nat
}.

(** A list iterator is the position it points at; [end()] is the length. *)
Definition iterator := nat.

Definition end_ (l : list Environment) : iterator := length l.

(** [std::find(first, last, env)] over the whole list: the position of the
    first element equal to [env], or [end()]. *)
Fixpoint std_find (l : list Environment) (env : Environment) : iterator :=
  match l with
  | [] => 0
  | x :: t => if N.eqb x env then 0 else S (std_find t env)
  end.

(** [std::list::erase(it)] for a dereferenceable [it]. *)
Fixpoint erase (l : list Environment) (it : iterator) : list Environment :=
  match l, it with
  | [], _ => []
  | _ :: t, 0 => t
  | x :: t, S it' => x :: erase t it'
  end.

(** [ElectronBindings::ElectronBindings]: the list starts empty and nothing
    has been sent on the handle. *)
Definition init : ElectronBindings := mkBindings [] 0.

(** [ElectronBindings::EnvironmentDestroyed(env)]. *)
Definition EnvironmentDestroyed (env : Environment) (self : ElectronBindings)
  : ElectronBindings :=
  let it := std_find (pending_next_ticks_ self) env in
  if negb (it =? end_ (pending_next_ticks_ self))
  then mkBindings (erase (pending_next_ticks_ self) it)
                  (call_next_tick_async_ self)
  else self.

(** [ElectronBindings::ActivateUVLoop(isolate)].  The argument is the
    environment [node::Environment::GetCurrent(isolate)] evaluates to. *)
Definition ActivateUVLoop (env : Environment) (self : ElectronBindings)
  : ElectronBindings :=
  if negb (std_find (pending_next_ticks_ self) env
           =? end_ (pending_next_ticks_ self))
  then self
  else mkBindings (pending_next_ticks_ self ++ [env])
                  (S (call_next_tick_async_ self)).

(** What runs inside the [node::InternalCallbackScope] of one loop
    iteration is script.  Of the members modelled here script reaches only
    [ActivateUVLoop] ([BindTo] exports it as [activateUvLoop]); a [Script]
    gives, for the iteration at position [it] visiting [env], the
    environments that were current at each such call, in call order. *)
Definition Script := iterator -> Environment -> list Environment.

(** Script that never calls back into the bindings. *)
Definition quiet : Script := fun _ _ => [].

Definition activate_all (envs : list Environment) (self : ElectronBindings)
  : ElectronBindings :=
  fold_left (fun b env => ActivateUVLoop env b) envs self.

(** The [for] loop of [OnCallNextTick], started at iterator [it].  The end
    test is re-evaluated on every iteration against the list as it is then,
    and [push_back] leaves every [std::list] iterator valid, so the position
    simply advances.  [log] records the environments whose scope was
    entered.  The loop need not terminate (script may keep registering
    fresh environments), hence the fuel. *)
Fixpoint tick_loop (fuel : nat) (script : Script) (it : iterator)
    (self : ElectronBindings) (log : list Environment)
  : option (list Environment * ElectronBindings) :=
  match nth_error (pending_next_ticks_ self) it with
  | None => Some (log, self)
  | Some env =>
      match fuel with
      | 0 => None
      | S fuel' =>
          tick_loop fuel' script (S it)
                    (activate_all (script it env) self) (log ++ [env])
      end
  end.

(** [ElectronBindings::OnCallNextTick(handle)]: the loop from [begin()],
    then [pending_next_ticks_.clear()]. *)
Definition OnCallNextTick (fuel : nat) (script : Script)
    (self : ElectronBindings)
  : option (list Environment * ElectronBindings) :=
  match tick_loop fuel script 0 self [] with
  | None => None
  | Some (log, self') =>
      Some (log, mkBindings [] (call_next_tick_async_ self'))
  end.

(** The bindings as they are when the loop, started at iterator [it], has
    gone through [n] iterations (fewer if it left before): the state in
    which the scope of the entry at [it + n] is entered. *)
Fixpoint tick_steps (n : nat) (script : Script) (it : iterator)
    (self : ElectronBindings) : ElectronBindings :=
  match n with
  | 0 => self
  | S n' =>
      match nth_error (pending_next_ticks_ self) it with
      | None => self
      | Some env =>
          tick_steps n' script (S it) (activate_all (script it env) self)
      end
  end.

(** States the dispatcher can be in between calls. *)
Inductive reachable : ElectronBindings -> Prop :=
| reach_init : reachable init
| reach_activate env self :
    reachable self -> reachable (ActivateUVLoop env self)
| reach_destroyed env self :
    reachable self -> reachable (EnvironmentDestroyed env self)
| reach_tick fuel script self log self' :
    reachable self ->
    OnCallNextTick fuel script self = Some (log, self') ->
    reachable self'.

(** Script that, whenever the scope of [at_] is entered, registers the
    environments [what] and otherwise does nothing. *)
Definition script_registering (at_ : Environment) (what : list Environment)
  : Script :=
  fun _ env => if N.eqb env at_ then what else [].

(** Script whose registrations stay within the environments [live]. *)
Definition bounded (script : Script) (live : list Environment) : Prop :=
  forall it env, incl (script it env) live.

End Bindings.

(** ** atom_api_shell.cc *)

Module Shell.

(** A [v8::Value], by the cases the converters used here tell apart.
    Strings carry their UTF-8 bytes; numbers are integral. *)
Inductive V8Value : Type :=
| V8Undefined
| V8Null
| V8Boolean (b : bool)
| V8Number (n : Z)
| V8String (s : string)
| V8Object.

(** [v8::Value::BooleanValue]: ECMAScript ToBoolean. *)
Definition BooleanValue (val : V8Value) : bool :=
  match val with
  | V8Undefined | V8Null => false
  | V8Boolean b => b
  | V8Number n => negb (n =? 0)%Z
  | V8String s => negb (String.length s =? 0)
  | V8Object => true
  end.

(** [gin::Converter<T>::FromV8(isolate, val, T* out)]: the result and the
    contents of [out] afterwards. *)
Class Converter (T : Type) := FromV8 : V8Value -> T -> bool * T.

(** gin's own converters for [bool] and [std::string]. *)
#[export] Instance Converter_bool : Converter bool :=
  fun val _ => (true, BooleanValue val).

#[export] Instance Converter_string : Converter string :=
  fun val out =>
    match val with
    | V8String s => (true, s)
    | _ => (false, out)
    end.

(** [base::win::ShortcutOperation]. *)
Inductive ShortcutOperation : Type :=
| SHORTCUT_CREATE_ALWAYS
| SHORTCUT_UPDATE_EXISTING
| SHORTCUT_REPLACE_EXISTING.

(** [gin::Converter<base::win::ShortcutOperation>::FromV8]. *)
#[export] Instance Converter_ShortcutOperation : Converter ShortcutOperation :=
  fun val out =>
    let (ok, operation) := FromV8 (T := string) val EmptyString in
    if negb ok then (false, out)
    else if (String.length operation =? 0) || (operation =? "create")%string
    then (true, SHORTCUT_CREATE_ALWAYS)
    else if (operation =? "update")%string
    then (true, SHORTCUT_UPDATE_EXISTING)
    else if (operation =? "replace")%string
    then (true, SHORTCUT_REPLACE_EXISTING)
    else (false, out).

(** [gin::Arguments]: the call's arguments, the cursor [next_] and the
    [insufficient_arguments_] flag. *)
Record Arguments := mkArguments {
  info_ : list V8Value;
  next_ : nat;
  insufficient_arguments_ : bool
}.

(** The arguments object a call with the actual arguments [vals] gets. *)
Definition call_with (vals : list V8Value) : Arguments :=
  mkArguments vals 0 false.

(** [gin::Arguments::GetNext(T* out)]: with no argument left it sets the
    flag and returns false without touching [out]; otherwise it converts
    [info[next_++]] into [out]. *)
Definition GetNext {T : Type} `{Converter T} (args : Arguments) (out : T)
  : bool * T * Arguments :=
  if length (info_ args) <=? next_ args
  then (false, out, mkArguments (info_ args) (next_ args) true)
  else
    let val := nth (next_ args) (info_ args) V8Undefined in
    let (ok, out') := FromV8 val out in
    (ok, out', mkArguments (info_ args) (S (next_ args))
                           (insufficient_arguments_ args)).

Section MoveItemToTrash.

(** [base::FilePath], its converter (file_path_converter.h) and the
    platform's trash operation are not part of the modelled files. *)
Variable FilePath : Type.
Variable empty_path : FilePath.
Context `{Converter_FilePath : Converter FilePath}.
Variable platform_util_MoveItemToTrash : FilePath -> bool -> bool.

(** [MoveItemToTrash(gin::Arguments* args)]. *)
Definition MoveItemToTrash (args : Arguments) : bool :=
  let full_path := empty_path in
  let '(_, full_path, args) := GetNext args full_path in
  let delete_on_fail := false in
  let '(_, delete_on_fail, args) := GetNext args delete_on_fail in
  platform_util_MoveItemToTrash full_path delete_on_fail.

End MoveItemToTrash.

Arguments MoveItemToTrash {FilePath} empty_path {Converter_FilePath}
  platform_util_MoveItemToTrash args.

End Shell.

(** ** The dispatcher driven from outside *)

Module Dispatch.

Import Bindings.

(** The two members other code calls between wake-ups: script through
    [activateUvLoop], the owner of an environment through
    [EnvironmentDestroyed]. *)
Inductive call : Type :=
| Activate (env : Environment)
| Destroyed (env : Environment).

Definition apply_call (c : call) (self : ElectronBindings) : ElectronBindings :=
  match c with
  | Activate env => ActivateUVLoop env self
  | Destroyed env => EnvironmentDestroyed env self
  end.

Definition apply_calls (cs : list call) (self : ElectronBindings)
  : ElectronBindings :=
  fold_left (fun b c => apply_call c b) cs self.


End Dispatch.

(** ** Promises and dictionaries handed to script *)

Module Glue.

Import Shell.

(** The calls made on a [util::Promise<T>], oldest first. *)
Inductive PromiseCall (T : Type) : Type :=
| Resolve (value : T)
| RejectWithErrorMessage (message : string).

Arguments Resolve {T} value.
Arguments RejectWithErrorMessage {T} message.

Definition Promise (T : Type) := list (PromiseCall T).

(** [std::string::c_str()] read as a C string: the bytes up to the first
    NUL. *)
Fixpoint c_str (s : string) : string :=
  match s with
  | EmptyString => EmptyString
  | String c t => if Ascii.eqb c Ascii.zero then EmptyString
                  else String c (c_str t)
  end.

(** A [gin_helper::Dictionary] over a fresh object: its own properties in
    creation order, and the hidden (private) values. *)
Record Dictionary := mkDictionary {
  properties : list (string * V8Value);
  hidden : list (string * V8Value)
}.

Definition CreateEmpty : Dictionary := mkDictionary [] [].

(** Storing under a key replaces the value of an existing property and
    otherwise adds the property at the end. *)
Fixpoint store (key : string) (val : V8Value) (l : list (string * V8Value))
  : list (string * V8Value) :=
  match l with
  | [] => [(key, val)]
  | (k, v) :: t =>
      if (k =? key)%string then (k, val) :: t else (k, v) :: store key val t
  end.

Fixpoint fetch (key : string) (l : list (string * V8Value)) : option V8Value :=
  match l with
  | [] => None
  | (k, v) :: t => if (k =? key)%string then Some v else fetch key t
  end.

Definition Dictionary_Set (key : string) (val : V8Value) (dict : Dictionary)
  : Dictionary :=
  mkDictionary (store key val (properties dict)) (hidden dict).

Definition Dictionary_SetHidden (key : string) (val : V8Value)
    (dict : Dictionary) : Dictionary :=
  mkDictionary (properties dict) (store key val (hidden dict)).

(** What script reads at [dict[key]]. *)
Definition Dictionary_Get (key : string) (dict : Dictionary) : option V8Value :=
  fetch key (properties dict).

End Glue.

(** ** electron_bindings.cc: memory figures *)

Module Memory.

Import Shell Glue.

(** [memory_instrumentation::GlobalMemoryDump::ProcessDump] with its
    [os_dump()], by the fields read here. *)
Record OSMemDump := mkOSMemDump {
  resident_set_kb : Z;
  private_footprint_kb : Z;
  shared_footprint_kb : Z
}.

Record ProcessDump := mkProcessDump {
  pid : Z;
  os_dump : OSMemDump
}.

Section DidReceiveMemoryDump.

(** [defined(OS_LINUX) || defined(OS_WIN)] and [base::GetCurrentProcId()]. *)
Variable OS_LINUX_or_OS_WIN : bool.
Variable GetCurrentProcId : Z.

(** The body of the [if] inside the loop, up to [ResolveWithGin]. *)
Definition resolve_with_dump (promise : Promise Dictionary) (dump : ProcessDump)
  : Promise Dictionary :=
  let dict := CreateEmpty in
  let osdump := os_dump dump in
  let dict :=
    if OS_LINUX_or_OS_WIN
    then Dictionary_Set "residentSet" (V8Number (resident_set_kb osdump)) dict
    else dict in
  let dict :=
    Dictionary_Set "private" (V8Number (private_footprint_kb osdump)) dict in
  let dict :=
    Dictionary_Set "shared" (V8Number (shared_footprint_kb osdump)) dict in
  promise ++ [Resolve dict].

(** The range-[for] over [process_dumps()]: the promise and the [resolved]
    flag when the loop is left, by [break] or at the end. *)
Fixpoint process_dumps_loop (dumps : list ProcessDump)
    (promise : Promise Dictionary) (resolved : bool)
  : Promise Dictionary * bool :=
  match dumps with
  | [] => (promise, resolved)
  | dump :: rest =>
      if (GetCurrentProcId =? pid dump)%Z
      then (resolve_with_dump promise dump, true)
      else process_dumps_loop rest promise resolved
  end.

(** [ElectronBindings::DidReceiveMemoryDump(context, promise, success,
    global_dump)]. *)
Definition DidReceiveMemoryDump (promise : Promise Dictionary) (success : bool)
    (process_dumps : list ProcessDump) : Promise Dictionary :=
  if negb success
  then promise ++ [RejectWithErrorMessage "Failed to create memory dump"]
  else
    let resolved := false in
    let (promise, resolved) :=
      process_dumps_loop process_dumps promise resolved in
    if negb resolved
    then promise ++ [RejectWithErrorMessage
           "Failed to find current process memory details in memory dump"]
    else promise.

(** [ElectronBindings::GetProcessMemoryInfo(isolate)]: the promise as it is
    on return, and whether [RequestGlobalDumpForPid] was called with
    [DidReceiveMemoryDump] bound to that promise. *)
Definition GetProcessMemoryInfo (IsBrowserProcess is_ready : bool)
  : Promise Dictionary * bool :=
  let promise := [] in
  if IsBrowserProcess && negb is_ready
  then (promise ++ [RejectWithErrorMessage
          "Memory Info is available only after app ready"], false)
  else (promise, true).

(** [getProcessMemoryInfo()] followed by what the memory instrumentation
    answers, if it answers: it runs the bound callback with its [success]
    and the process dumps. *)
Definition memory_info_promise (IsBrowserProcess is_ready : bool)
    (answer : option (bool * list ProcessDump)) : Promise Dictionary :=
  let (promise, requested) := GetProcessMemoryInfo IsBrowserProcess is_ready in
  match requested, answer with
  | true, Some (success, process_dumps) =>
      DidReceiveMemoryDump promise success process_dumps
  | _, _ => promise
  end.

End DidReceiveMemoryDump.

(** [static_cast<double>(n)] for an unsigned integer [n], as the integer the
    double holds: [n] rounded to 53 significant bits, to nearest, ties to
    the even significand.  [e] is the number of low bits that do not
    fit. *)
Definition static_cast_double (n : Z) : Z :=
  let e := Z.max 0 (Z.log2 n - 52) in
  let q := Z.shiftr n e in
  let r := (n - Z.shiftl q e)%Z in
  let half := Z.shiftl 1 (e - 1) in
  if (e =? 0)%Z then n
  else if (half <? r)%Z || ((r =? half)%Z && Z.odd q)
       then Z.shiftl (q + 1) e
       else Z.shiftl q e.

(** [ElectronBindings::GetBlinkMemoryInfo(isolate)], from the two
    [blink::ProcessHeap] totals (byte counts, [size_t]). *)
Definition GetBlinkMemoryInfo (TotalAllocatedObjectSize TotalAllocatedSpace : Z)
  : Dictionary :=
  let allocated := TotalAllocatedObjectSize in
  let total := TotalAllocatedSpace in
  let dict := CreateEmpty in
  let dict := Dictionary_SetHidden "simple" (V8Boolean true) dict in
  let dict := Dictionary_Set "allocated" (V8Number (static_cast_double
       (Z.shiftr allocated 10))) dict in
  let dict := Dictionary_Set "total" (V8Number (static_cast_double
       (Z.shiftr total 10))) dict in
  dict.

(** [v8::HeapStatistics], by the getters read here ([size_t] each). *)
Record HeapStatistics := mkHeapStatistics {
  total_heap_size : Z;
  total_heap_size_executable : Z;
  total_physical_size : Z;
  total_available_size : Z;
  used_heap_size : Z;
  heap_size_limit : Z;
  malloced_memory : Z;
  peak_malloced_memory : Z;
  does_zap_garbage : Z
}.

(** [ElectronBindings::GetHeapStatistics(isolate)], from what
    [isolate->GetHeapStatistics] filled in. *)
Definition GetHeapStatistics (v8_heap_stats : HeapStatistics) : Dictionary :=
  let dict := CreateEmpty in
  let dict := Dictionary_SetHidden "simple" (V8Boolean true) dict in
  let dict := Dictionary_Set "totalHeapSize"
    (V8Number (static_cast_double
       (Z.shiftr (total_heap_size v8_heap_stats) 10))) dict in
  let dict := Dictionary_Set "totalHeapSizeExecutable"
    (V8Number (static_cast_double
       (Z.shiftr (total_heap_size_executable v8_heap_stats) 10))) dict in
  let dict := Dictionary_Set "totalPhysicalSize"
    (V8Number (static_cast_double
       (Z.shiftr (total_physical_size v8_heap_stats) 10))) dict in
  let dict := Dictionary_Set "totalAvailableSize"
    (V8Number (static_cast_double
       (Z.shiftr (total_available_size v8_heap_stats) 10))) dict in
  let dict := Dictionary_Set "usedHeapSize"
    (V8Number (static_cast_double
       (Z.shiftr (used_heap_size v8_heap_stats) 10))) dict in
  let dict := Dictionary_Set "heapSizeLimit"
    (V8Number (static_cast_double
       (Z.shiftr (heap_size_limit v8_heap_stats) 10))) dict in
  let dict := Dictionary_Set "mallocedMemory"
    (V8Number (static_cast_double
       (Z.shiftr (malloced_memory v8_heap_stats) 10))) dict in
  let dict := Dictionary_Set "peakMallocedMemory"
    (V8Number (static_cast_double
       (Z.shiftr (peak_malloced_memory v8_heap_stats) 10))) dict in
  let dict := Dictionary_Set "doesZapGarbage"
    (V8Boolean (negb (does_zap_garbage v8_heap_stats =? 0)%Z)) dict in
  dict.

(** The byte counts behind the size entries of [GetHeapStatistics], by
    key. *)
Definition heap_sizes (v8_heap_stats : HeapStatistics) : list (string * Z) :=
  [ ("totalHeapSize"%string, total_heap_size v8_heap_stats);
    ("totalHeapSizeExecutable"%string, total_heap_size_executable v8_heap_stats);
    ("totalPhysicalSize"%string, total_physical_size v8_heap_stats);
    ("totalAvailableSize"%string, total_available_size v8_heap_stats);
    ("usedHeapSize"%string, used_heap_size v8_heap_stats);
    ("heapSizeLimit"%string, heap_size_limit v8_heap_stats);
    ("mallocedMemory"%string, malloced_memory v8_heap_stats);
    ("peakMallocedMemory"%string, peak_malloced_memory v8_heap_stats) ].

End Memory.

(** ** atom_api_shell.cc: [openExternal] *)

Module External.

Import Shell Glue.

Section OpenExternal.

(** [GURL], [base::FilePath] and [gin::Dictionary] with their converters,
    [gin::Dictionary::Get], and [platform_util::OpenExternalOptions] as
    default-constructed are not part of the modelled files. *)
Variable GURL : Type.
Variable FilePath : Type.
Variable Dictionary : Type.
Context `{Converter_FilePath : Converter FilePath}.
Context `{Converter_Dictionary : Converter Dictionary}.
Variable Dictionary_Get :
  forall T : Type, Converter T -> Dictionary -> string -> T -> bool * T.
Variable null_dictionary : Dictionary.

Record OpenExternalOptions := mkOpenExternalOptions {
  activate : bool;
  working_dir : FilePath
}.

Variable default_options : OpenExternalOptions.

(** [OnOpenExternalFinished(promise, error)].  The message handed to
    [RejectWithErrorMessage] is [error.c_str()]. *)
Definition OnOpenExternalFinished (promise : Promise unit) (error : string)
  : Promise unit :=
  if String.length error =? 0
  then promise ++ [Resolve tt]
  else promise ++ [RejectWithErrorMessage (c_str error)].

(** [OpenExternal(url, args)] up to the call of
    [platform_util::OpenExternal]: the url and options it passes.  [args]
    is the arguments object as the function receives it, the url already
    taken from it. *)
Definition OpenExternal_request (url : GURL) (args : Arguments)
  : GURL * OpenExternalOptions :=
  let options := default_options in
  let options :=
    if 2 <=? length (info_ args)
    then
      let obj := null_dictionary in
      let '(ok, obj, args) := GetNext args obj in
      if ok
      then
        let (_, activate') :=
          Dictionary_Get bool _ obj "activate" (activate options) in
        let (_, working_dir') :=
          Dictionary_Get FilePath _ obj "workingDirectory"
                         (working_dir options) in
        mkOpenExternalOptions activate' working_dir'
      else options
    else options in
  (url, options).

(** [OpenExternal(url, args)] and the platform's answer: the platform is
    handed the request and [OnOpenExternalFinished] bound to the fresh
    promise; [finished] is the error string it runs that callback with, if
    it does. *)
Definition OpenExternal (url : GURL) (args : Arguments)
    (finished : option string)
  : (GURL * OpenExternalOptions) * Promise unit :=
  let promise := [] in
  (OpenExternal_request url args,
   match finished with
   | Some error => OnOpenExternalFinished promise error
   | None => promise
   end).

End OpenExternal.

Arguments OpenExternal_request {GURL FilePath Dictionary}
  {Converter_FilePath Converter_Dictionary}
  Dictionary_Get null_dictionary default_options url args.
Arguments OpenExternal {GURL FilePath Dictionary}
  {Converter_FilePath Converter_Dictionary}
  Dictionary_Get null_dictionary default_options url args finished.

End External.

(** * Properties of the next-tick dispatcher *)

Import Bindings.

(** ** [std::find] and [erase] *)

Lemma std_find_le (l : list Environment) (env : Environment) :
  std_find l env <= length l.
Proof.
  induction l as [|x t IH]; simpl; [lia|].
  destruct (N.eqb x env); lia.
Qed.

Lemma std_find_end_iff (l : list Environment) (env : Environment) :
  std_find l env = end_ l <-> ~ In env l.
Proof.
  unfold end_. induction l as [|x t IH]; simpl.
  - split; [intros _ []|reflexivity].
  - destruct (N.eqb_spec x env) as [->|Hne].
    + split; [discriminate|]. intros H. exfalso. apply H. now left.
    + split.
      * intros H [Hx|Hin]; [congruence|]. apply IH; [lia|assumption].
      * intros H. f_equal. apply IH. intros Hin. apply H. now right.
Qed.

Lemma find_eqb_end_false (l : list Environment) (env : Environment) :
  In env l -> (std_find l env =? end_ l) = false.
Proof.
  intros Hin. apply Nat.eqb_neq. intros E.
  now apply std_find_end_iff in E.
Qed.

Lemma find_eqb_end_true (l : list Environment) (env : Environment) :
  ~ In env l -> (std_find l env =? end_ l) = true.
Proof. intros H. apply Nat.eqb_eq. now apply std_find_end_iff. Qed.

Lemma erase_find_In (l : list Environment) (env x : Environment) :
  In x (erase l (std_find l env)) -> In x l.
Proof.
  induction l as [|y t IH]; simpl; [tauto|].
  destruct (N.eqb y env); simpl; [now right|].
  intros [->|H]; [now left|right; auto].
Qed.

Lemma erase_find_NoDup (l : list Environment) (env : Environment) :
  NoDup l -> NoDup (erase l (std_find l env)).
Proof.
  induction 1 as [|y t Hy Hnd IH]; simpl; [constructor|].
  destruct (N.eqb y env); simpl; [assumption|].
  constructor; [|assumption].
  intros Hin. apply Hy. eapply erase_find_In; eauto.
Qed.

Lemma erase_find_gone (l : list Environment) (env : Environment) :
  NoDup l -> ~ In env (erase l (std_find l env)).
Proof.
  induction 1 as [|y t Hy Hnd IH]; simpl; [tauto|].
  destruct (N.eqb_spec y env) as [->|Hne]; simpl; [assumption|].
  intros [E|Hin]; [congruence|auto].
Qed.

Lemma erase_find_others (l : list Environment) (env x : Environment) :
  x <> env -> In x l -> In x (erase l (std_find l env)).
Proof.
  intros Hne. induction l as [|y t IH]; simpl; [tauto|].
  destruct (N.eqb_spec y env) as [->|Hy]; simpl.
  - intros [E|H]; [congruence|assumption].
  - intros [E|H]; [now left|right; auto].
Qed.

(** ** The two list operations *)

Lemma ActivateUVLoop_pending (env : Environment) (self : ElectronBindings) :
  In env (pending_next_ticks_ self) -> ActivateUVLoop env self = self.
Proof.
  intros Hin. unfold ActivateUVLoop.
  now rewrite (find_eqb_end_false _ _ Hin).
Qed.

Lemma ActivateUVLoop_fresh (env : Environment) (self : ElectronBindings) :
  ~ In env (pending_next_ticks_ self) ->
  ActivateUVLoop env self =
  mkBindings (pending_next_ticks_ self ++ [env])
             (S (call_next_tick_async_ self)).
Proof.
  intros Hin. unfold ActivateUVLoop.
  now rewrite (find_eqb_end_true _ _ Hin).
Qed.

Lemma EnvironmentDestroyed_absent (env : Environment) (self : ElectronBindings) :
  ~ In env (pending_next_ticks_ self) -> EnvironmentDestroyed env self = self.
Proof.
  intros Hin. unfold EnvironmentDestroyed.
  now rewrite (find_eqb_end_true _ _ Hin).
Qed.

Lemma EnvironmentDestroyed_present (env : Environment) (self : ElectronBindings) :
  In env (pending_next_ticks_ self) ->
  EnvironmentDestroyed env self =
  mkBindings (erase (pending_next_ticks_ self)
                    (std_find (pending_next_ticks_ self) env))
             (call_next_tick_async_ self).
Proof.
  intros Hin. unfold EnvironmentDestroyed.
  now rewrite (find_eqb_end_false _ _ Hin).
Qed.

Lemma ActivateUVLoop_NoDup (env : Environment) (self : ElectronBindings) :
  NoDup (pending_next_ticks_ self) ->
  NoDup (pending_next_ticks_ (ActivateUVLoop env self)).
Proof.
  intros Hnd. destruct (in_dec N.eq_dec env (pending_next_ticks_ self)) as [Hin|Hin].
  - now rewrite ActivateUVLoop_pending.
  - rewrite ActivateUVLoop_fresh by assumption. simpl.
    apply NoDup_app; [assumption|repeat constructor; simpl; tauto|].
    intros x Hx [<-|[]]. contradiction.
Qed.

Lemma EnvironmentDestroyed_NoDup (env : Environment) (self : ElectronBindings) :
  NoDup (pending_next_ticks_ self) ->
  NoDup (pending_next_ticks_ (EnvironmentDestroyed env self)).
Proof.
  intros Hnd. destruct (in_dec N.eq_dec env (pending_next_ticks_ self)) as [Hin|Hin].
  - rewrite EnvironmentDestroyed_present by assumption. simpl.
    now apply erase_find_NoDup.
  - now rewrite EnvironmentDestroyed_absent.
Qed.

(** What a run of registrations does: the list grows at its end by
    duplicate-free new entries, one [uv_async_send] per entry added. *)
Lemma activate_all_spec (envs : list Environment) :
  forall self : ElectronBindings,
  exists extra,
    pending_next_ticks_ (activate_all envs self)
      = pending_next_ticks_ self ++ extra
    /\ call_next_tick_async_ (activate_all envs self)
      = call_next_tick_async_ self + length extra
    /\ incl extra envs
    /\ (forall C, In C envs ->
                  In C (pending_next_ticks_ (activate_all envs self)))
    /\ (NoDup (pending_next_ticks_ self) ->
        NoDup (pending_next_ticks_ (activate_all envs self))).
Proof.
  induction envs as [|env envs IH]; intros self.
  - exists []. simpl. rewrite app_nil_r, Nat.add_0_r.
    repeat split; auto using incl_nil_l. intros C [].
  - change (activate_all (env :: envs) self)
      with (activate_all envs (ActivateUVLoop env self)).
    destruct (IH (ActivateUVLoop env self))
      as (extra & Hp & Hs & Hincl & Hall & Hnd).
    destruct (in_dec N.eq_dec env (pending_next_ticks_ self)) as [Hin|Hin].
    + rewrite ActivateUVLoop_pending in * by assumption.
      exists extra. repeat split; auto.
      * now apply incl_tl.
      * intros C [<-|HC]; [|auto]. rewrite Hp. apply in_or_app. now left.
    + pose proof (ActivateUVLoop_NoDup env self) as Hstep.
      rewrite ActivateUVLoop_fresh in * by assumption. simpl in *.
      exists (env :: extra). repeat split.
      * rewrite Hp, <- app_assoc. reflexivity.
      * rewrite Hs. simpl. lia.
      * intros x [<-|Hx]; [now left|right; auto].
      * intros C [<-|HC]; [|auto]. rewrite Hp.
        apply in_or_app. left. apply in_or_app. right. now left.
      * auto.
Qed.

(** ** The loop of [OnCallNextTick] *)

Lemma skipn_nth_error (l : list Environment) (i : nat) (x : Environment) :
  nth_error l i = Some x -> skipn i l = x :: skipn (S i) l.
Proof.
  revert i. induction l as [|y t IH]; intros [|i]; simpl; try discriminate.
  - now intros [= ->].
  - intros H. now rewrite (IH _ H).
Qed.

(** The loop only appends; it enters the scope of every entry from [it] to
    the end of the list as it is when the loop exits; whatever script
    registered on the way is in that list. *)
Lemma tick_loop_spec (script : Script) (fuel : nat) :
  forall (it : iterator) (self : ElectronBindings) (log log' : list Environment)
         (self' : ElectronBindings),
  tick_loop fuel script it self log = Some (log', self') ->
  exists extra,
    pending_next_ticks_ self' = pending_next_ticks_ self ++ extra
    /\ call_next_tick_async_ self' = call_next_tick_async_ self + length extra
    /\ log' = log ++ skipn it (pending_next_ticks_ self')
    /\ (NoDup (pending_next_ticks_ self) -> NoDup (pending_next_ticks_ self'))
    /\ (forall i env C,
          it <= i -> nth_error (pending_next_ticks_ self') i = Some env ->
          In C (script i env) -> In C (pending_next_ticks_ self'))
    /\ (forall C, In C extra ->
          exists i env,
            it <= i /\ nth_error (pending_next_ticks_ self') i = Some env
            /\ In C (script i env)).
Proof.
  induction fuel as [|fuel IH]; intros it self log log' self' Hrun;
    simpl in Hrun;
    destruct (nth_error (pending_next_ticks_ self) it) as [env|] eqn:Hit;
    try discriminate.
  1, 3:
    injection Hrun as <- <-; exists [];
    apply nth_error_None in Hit;
    rewrite app_nil_r, Nat.add_0_r, skipn_all2, app_nil_r by assumption;
    repeat split; auto;
    [ intros i env C Hle Hi; assert (nth_error (pending_next_ticks_ self) i <> None)
        as Hlt by congruence; apply nth_error_Some in Hlt; lia
    | intros C [] ].
  apply IH in Hrun as (e2 & Hp & Hs & Hlog & Hnd & Hreg & Hfrom).
  destruct (activate_all_spec (script it env) self)
    as (e1 & Hp1 & Hs1 & Hincl1 & Hall1 & Hnd1).
  assert (Hfinal : pending_next_ticks_ self'
                   = pending_next_ticks_ self ++ (e1 ++ e2))
    by (rewrite Hp, Hp1, app_assoc; reflexivity).
  assert (Hit' : nth_error (pending_next_ticks_ self') it = Some env).
  { rewrite Hfinal, nth_error_app1; [assumption|].
    apply nth_error_Some. congruence. }
  exists (e1 ++ e2). repeat split.
  - assumption.
  - rewrite Hs, Hs1, length_app. lia.
  - rewrite Hlog, <- app_assoc. simpl. now rewrite (skipn_nth_error _ _ _ Hit').
  - auto.
  - intros i env0 C Hle Hi HC.
    destruct (Nat.eq_dec i it) as [->|Hne].
    + assert (env0 = env) as -> by congruence.
      rewrite Hp. apply in_or_app. left. now apply Hall1.
    + apply (Hreg i env0 C); auto. lia.
  - intros C HC. apply in_app_or in HC as [HC|HC].
    + exists it, env. auto.
    + destruct (Hfrom C HC) as (i & env0 & Hle & Hi & HCi).
      exists i, env0. repeat split; auto. lia.
Qed.

Lemma tick_loop_fuel_mono (script : Script) (fuel : nat) :
  forall fuel' it self log r,
  fuel <= fuel' ->
  tick_loop fuel script it self log = Some r ->
  tick_loop fuel' script it self log = Some r.
Proof.
  induction fuel as [|fuel IH]; intros fuel' it self log r Hle Hrun;
    destruct fuel' as [|fuel']; simpl in *;
    destruct (nth_error (pending_next_ticks_ self) it); try discriminate;
    try assumption; try lia.
  apply IH; [lia|assumption].
Qed.

(** The loop exits once script registers only environments of a finite
    collection: the list never repeats an entry, so it cannot outgrow it. *)
Lemma tick_loop_returns (script : Script) (live : list Environment) (fuel : nat) :
  bounded script live ->
  forall it self log,
  NoDup (pending_next_ticks_ self) ->
  incl (pending_next_ticks_ self) live ->
  length live - it <= fuel ->
  exists r, tick_loop fuel script it self log = Some r.
Proof.
  intros Hb. induction fuel as [|fuel IH]; intros it self log Hnd Hincl Hfuel;
    simpl; destruct (nth_error (pending_next_ticks_ self) it) as [env|] eqn:Hit;
    eauto.
  - exfalso. assert (nth_error (pending_next_ticks_ self) it <> None) as Hlt
      by congruence.
    apply nth_error_Some in Hlt.
    pose proof (NoDup_incl_length Hnd Hincl). lia.
  - destruct (activate_all_spec (script it env) self)
      as (e1 & Hp1 & _ & Hincl1 & _ & Hnd1).
    apply IH; [auto| |lia].
    rewrite Hp1. apply incl_app; [assumption|].
    intros x Hx. apply (Hb it env). auto.
Qed.

(** ** [OnCallNextTick] as a whole *)

Lemma OnCallNextTick_spec (script : Script) (fuel : nat)
    (self : ElectronBindings) (log : list Environment)
    (self' : ElectronBindings) :
  OnCallNextTick fuel script self = Some (log, self') ->
  exists extra,
    log = pending_next_ticks_ self ++ extra
    /\ pending_next_ticks_ self' = []
    /\ call_next_tick_async_ self' = call_next_tick_async_ self + length extra
    /\ (NoDup (pending_next_ticks_ self) -> NoDup log)
    /\ (forall i env C, nth_error log i = Some env ->
                        In C (script i env) -> In C log)
    /\ (forall C, In C extra ->
          exists i env, nth_error log i = Some env /\ In C (script i env)).
Proof.
  unfold OnCallNextTick. intros Hrun.
  destruct (tick_loop fuel script 0 self []) as [[log0 self0]|] eqn:Hloop;
    [|discriminate].
  injection Hrun as <- <-.
  apply tick_loop_spec in Hloop as (extra & Hp & Hs & Hlog & Hnd & Hreg & Hfrom).
  simpl in Hlog. subst log0. exists extra. rewrite Hp in *. simpl.
  repeat split; auto.
  - intros i env C. apply Hreg. lia.
  - intros C HC. destruct (Hfrom C HC) as (i & env & _ & Hi & HCi). eauto.
Qed.

Lemma OnCallNextTick_returns (script : Script) (live : list Environment)
    (self : ElectronBindings) :
  NoDup (pending_next_ticks_ self) ->
  incl (pending_next_ticks_ self) live ->
  bounded script live ->
  exists r, OnCallNextTick (length live) script self = Some r.
Proof.
  intros Hnd Hincl Hb. unfold OnCallNextTick.
  destruct (@tick_loop_returns script live (length live) Hb 0 self [] Hnd Hincl)
    as [[log self'] ->]; [lia|]. eauto.
Qed.

Lemma OnCallNextTick_deterministic (script : Script) (fuel fuel' : nat)
    (self : ElectronBindings) r r' :
  OnCallNextTick fuel script self = Some r ->
  OnCallNextTick fuel' script self = Some r' ->
  r = r'.
Proof.
  unfold OnCallNextTick. intros H H'.
  destruct (tick_loop fuel script 0 self []) as [p|] eqn:E; [|discriminate].
  destruct (tick_loop fuel' script 0 self []) as [p'|] eqn:E'; [|discriminate].
  apply (@tick_loop_fuel_mono _ _ (Nat.max fuel fuel')) in E; [|lia].
  apply (@tick_loop_fuel_mono _ _ (Nat.max fuel fuel')) in E'; [|lia].
  assert (p = p') as -> by congruence.
  destruct p' as [log self']. congruence.
Qed.

Lemma NoDup_count_occ_one (l : list Environment) (x : Environment) :
  NoDup l -> In x l -> count_occ N.eq_dec l x = 1.
Proof.
  intros Hnd Hin.
  pose proof (proj1 (NoDup_count_occ N.eq_dec l) Hnd x).
  pose proof (proj1 (count_occ_In N.eq_dec l x) Hin). lia.
Qed.

Lemma activate_all_pending (envs : list Environment) (self : ElectronBindings) :
  incl envs (pending_next_ticks_ self) -> activate_all envs self = self.
Proof.
  induction envs as [|env envs IH]; intros Hincl; [reflexivity|].
  change (activate_all (env :: envs) self)
    with (activate_all envs (ActivateUVLoop env self)).
  rewrite ActivateUVLoop_pending by (apply Hincl; now left).
  apply IH. intros x Hx. apply Hincl. now right.
Qed.

Lemma bounded_quiet (live : list Environment) : bounded quiet live.
Proof. intros it env x []. Qed.

Lemma bounded_script_registering (at_ : Environment)
    (what live : list Environment) :
  incl what live -> bounded (script_registering at_ what) live.
Proof.
  intros Hincl it env. unfold script_registering.
  destruct (N.eqb env at_); [assumption|apply incl_nil_l].
Qed.

(** ** The operations on small inputs *)

Example EnvironmentDestroyed_erases_first_match :
  EnvironmentDestroyed 2%N (mkBindings [1%N; 2%N; 3%N] 3)
  = mkBindings [1%N; 3%N] 3.
Proof. reflexivity. Qed.

(** Only the first match is erased, which is why the statements below ask
    for a duplicate-free list, as every reachable one is. *)
Example EnvironmentDestroyed_on_duplicates :
  EnvironmentDestroyed 1%N (mkBindings [1%N; 1%N] 2) = mkBindings [1%N] 2.
Proof. reflexivity. Qed.

Example ActivateUVLoop_twice :
  ActivateUVLoop 4%N (ActivateUVLoop 4%N init) = mkBindings [4%N] 1.
Proof. reflexivity. Qed.

Example OnCallNextTick_quiet :
  OnCallNextTick 3 quiet (mkBindings [1%N; 2%N; 3%N] 3)
  = Some ([1%N; 2%N; 3%N], mkBindings [] 3).
Proof. reflexivity. Qed.

(** Script that registers a new environment in every scope keeps the loop
    going; forty iterations do not reach the end of the list. *)
Example OnCallNextTick_fed_forever :
  OnCallNextTick 40 (fun _ env => [N.succ env]) (mkBindings [1%N] 1) = None.
Proof. vm_compute. reflexivity. Qed.

(** ** The claims about the dispatcher *)

(** C1.  From a duplicate-free pending list, [OnCallNextTick] returns as
    soon as script registers only environments of a finite collection, and
    whenever it returns the pending list is empty, every environment that
    was pending at entry had its scope entered exactly once, those visits
    come first and in list order, and any further visit is of an
    environment script registered during this drain. *)
Theorem OnCallNextTick_drains_pending (script : Script)
    (self : ElectronBindings) :
  NoDup (pending_next_ticks_ self) ->
  (forall live, incl (pending_next_ticks_ self) live -> bounded script live ->
     exists r, OnCallNextTick (length live) script self = Some r)
  /\ (forall fuel log self',
        OnCallNextTick fuel script self = Some (log, self') ->
        pending_next_ticks_ self' = []
        /\ (forall env, In env (pending_next_ticks_ self) ->
                        count_occ N.eq_dec log env = 1)
        /\ firstn (length (pending_next_ticks_ self)) log
           = pending_next_ticks_ self
        /\ (forall C, In C log ->
              In C (pending_next_ticks_ self)
              \/ exists i env, nth_error log i = Some env
                               /\ In C (script i env))).
Proof.
  intros Hnd. split.
  - intros live Hincl Hb. now apply OnCallNextTick_returns.
  - intros fuel log self' Hrun.
    apply OnCallNextTick_spec in Hrun
      as (extra & -> & Hp & _ & Hlog & _ & Hfrom).
    repeat split.
    + assumption.
    + intros env Hin. apply NoDup_count_occ_one; [auto|].
      apply in_or_app. now left.
    + rewrite firstn_app, Nat.sub_diag, firstn_all. simpl. apply app_nil_r.
    + intros C HC. apply in_app_or in HC as [HC|HC]; [now left|right; auto].
Qed.

Lemma NoDup_two (a b : Environment) : a <> b -> NoDup [a; b].
Proof.
  intros Hne. constructor; [intros [E|[]]; congruence|].
  constructor; [intros []|constructor].
Qed.

Lemma OnCallNextTick_drains_pending_witness :
  NoDup (pending_next_ticks_ (mkBindings [1%N; 2%N] 2))
  /\ (exists r, OnCallNextTick 3 (script_registering 1%N [3%N])
                               (mkBindings [1%N; 2%N] 2) = Some r)
  /\ (forall fuel log self',
        OnCallNextTick fuel (script_registering 1%N [3%N])
                       (mkBindings [1%N; 2%N] 2) = Some (log, self') ->
        pending_next_ticks_ self' = []
        /\ count_occ N.eq_dec log 1%N = 1
        /\ count_occ N.eq_dec log 2%N = 1
        /\ firstn 2 log = [1%N; 2%N]).
Proof.
  assert (Hnd : NoDup (pending_next_ticks_ (mkBindings [1%N; 2%N] 2)))
    by (apply NoDup_two; discriminate).
  split; [exact Hnd|].
  destruct (OnCallNextTick_drains_pending (script_registering 1%N [3%N]) _ Hnd)
    as [Hret Hpost].
  split.
  - apply (Hret [1%N; 2%N; 3%N]).
    + intros x Hx. simpl in *. tauto.
    + apply bounded_script_registering. intros x Hx. simpl in *. tauto.
  - intros fuel log self' Hrun.
    destruct (Hpost fuel log self' Hrun) as (Hp & Hcount & Hfirst & _).
    repeat split; auto; apply Hcount; simpl; auto.
Defined.

(** C2.  A call of [ActivateUVLoop] for an environment that is not pending
    appends it and sends on the handle; a call for one that is pending
    changes nothing and sends nothing.  So however often it is called for
    [C], alone or among calls for other environments, [C] is in the list
    exactly once afterwards, and the handle was sent on once for each
    environment that became pending, no more. *)
Theorem ActivateUVLoop_registers_once (self : ElectronBindings)
    (C : Environment) :
  (~ In C (pending_next_ticks_ self) ->
     ActivateUVLoop C self
     = mkBindings (pending_next_ticks_ self ++ [C])
                  (S (call_next_tick_async_ self)))
  /\ (In C (pending_next_ticks_ self) -> ActivateUVLoop C self = self)
  /\ (forall n, ~ In C (pending_next_ticks_ self) ->
        activate_all (repeat C (S n)) self
        = mkBindings (pending_next_ticks_ self ++ [C])
                     (S (call_next_tick_async_ self)))
  /\ (forall envs, NoDup (pending_next_ticks_ self) -> In C envs ->
        let self' := activate_all envs self in
        count_occ N.eq_dec (pending_next_ticks_ self') C = 1
        /\ call_next_tick_async_ self' - call_next_tick_async_ self
           = length (pending_next_ticks_ self')
             - length (pending_next_ticks_ self)).
Proof.
  split; [apply ActivateUVLoop_fresh|].
  split; [apply ActivateUVLoop_pending|].
  split.
  - intros n Hin.
    change (activate_all (repeat C (S n)) self)
      with (activate_all (repeat C n) (ActivateUVLoop C self)).
    rewrite ActivateUVLoop_fresh by assumption.
    apply activate_all_pending. simpl.
    intros x Hx. apply repeat_spec in Hx as ->.
    apply in_or_app. right. now left.
  - intros envs Hnd HC self'. subst self'.
    destruct (activate_all_spec envs self) as (extra & Hp & Hs & _ & Hall & Hnd').
    split; [apply NoDup_count_occ_one; auto|].
    rewrite Hp, Hs, length_app. lia.
Qed.

Lemma ActivateUVLoop_registers_once_witness :
  ~ In 7%N (pending_next_ticks_ (mkBindings [5%N] 1))
  /\ NoDup (pending_next_ticks_ (mkBindings [5%N] 1))
  /\ ActivateUVLoop 7%N (mkBindings [5%N] 1) = mkBindings [5%N; 7%N] 2
  /\ activate_all (repeat 7%N 3) (mkBindings [5%N] 1)
     = mkBindings [5%N; 7%N] 2
  /\ count_occ N.eq_dec
       (pending_next_ticks_
          (activate_all [7%N; 5%N; 7%N] (mkBindings [5%N] 1))) 7%N = 1.
Proof.
  assert (Hfresh : ~ In 7%N (pending_next_ticks_ (mkBindings [5%N] 1)))
    by (simpl; intros [E|[]]; discriminate).
  assert (Hnd : NoDup (pending_next_ticks_ (mkBindings [5%N] 1)))
    by (repeat constructor; intros []).
  destruct (ActivateUVLoop_registers_once (mkBindings [5%N] 1) 7%N)
    as (H1 & _ & H3 & H4).
  split; [exact Hfresh|]. split; [exact Hnd|].
  split; [exact (H1 Hfresh)|]. split; [exact (H3 2 Hfresh)|].
  apply (H4 [7%N; 5%N; 7%N] Hnd). simpl. auto.
Defined.

Lemma activate_all_app (envs envs' : list Environment)
    (self : ElectronBindings) :
  activate_all (envs ++ envs') self
  = activate_all envs' (activate_all envs self).
Proof. unfold activate_all. apply fold_left_app. Qed.

(** A run of the loop that returns passes through the states [tick_steps]
    names: from the state after [n] iterations the loop, resumed at
    [it + n], returns the same. *)
Lemma tick_loop_through_steps (script : Script) (n : nat) :
  forall (fuel : nat) (it : iterator) (self : ElectronBindings)
         (log log' : list Environment) (self' : ElectronBindings),
  tick_loop fuel script it self log = Some (log', self') ->
  it + n < length (pending_next_ticks_ self') ->
  exists fuel' log1,
    tick_loop fuel' script (it + n) (tick_steps n script it self) log1
    = Some (log', self').
Proof.
  induction n as [|n IH]; intros fuel it self log log' self' Hrun Hlt.
  - exists fuel, log. now rewrite Nat.add_0_r.
  - destruct fuel as [|fuel]; simpl in Hrun; simpl;
      destruct (nth_error (pending_next_ticks_ self) it) as [env|] eqn:Hit;
      try discriminate.
    1, 3: injection Hrun as <- <-; apply nth_error_None in Hit; lia.
    rewrite <- Nat.add_succ_comm. eapply IH; [eassumption|lia].
Qed.

(** C3, as the code has it.  Take a call of [ActivateUVLoop] for [C] made
    by script in the scope the drain enters at position [i]; [at_call] is
    the bindings at that moment.  The list then is an initial part of what
    the drain visits.  If [C] is not in it, the call appends [C] and sends
    on the handle, and the same drain enters the scope of [C] later, at the
    position the append gave it; the send stays counted when the drain
    returns.  If [C] is in it, the call changes nothing.  Either way [C]
    is visited exactly once in this drain, and the list is empty when
    [OnCallNextTick] returns. *)
Theorem reentrant_registration_same_drain (script : Script)
    (self : ElectronBindings) :
  NoDup (pending_next_ticks_ self) ->
  (forall live, incl (pending_next_ticks_ self) live -> bounded script live ->
     exists r, OnCallNextTick (length live) script self = Some r)
  /\ (forall fuel log self',
        OnCallNextTick fuel script self = Some (log, self') ->
        forall i env before C after,
          nth_error log i = Some env ->
          script i env = before ++ C :: after ->
          let at_call := activate_all before (tick_steps i script 0 self) in
          (exists rest, log = pending_next_ticks_ at_call ++ rest)
          /\ nth_error (pending_next_ticks_ at_call) i = Some env
          /\ (~ In C (pending_next_ticks_ at_call) ->
              ActivateUVLoop C at_call
              = mkBindings (pending_next_ticks_ at_call ++ [C])
                           (S (call_next_tick_async_ at_call))
              /\ nth_error log (length (pending_next_ticks_ at_call)) = Some C
              /\ i < length (pending_next_ticks_ at_call)
              /\ S (call_next_tick_async_ at_call)
                 <= call_next_tick_async_ self')
          /\ (In C (pending_next_ticks_ at_call) ->
              ActivateUVLoop C at_call = at_call)
          /\ count_occ N.eq_dec log C = 1
          /\ pending_next_ticks_ self' = []).
Proof.
  intros Hnd. split.
  - intros live Hincl Hb. now apply OnCallNextTick_returns.
  - intros fuel log self' Hrun i env before C after Hi Hscript at_call.
    pose proof (OnCallNextTick_spec _ _ _ _ _ Hrun)
      as (ex0 & _ & Hempty & _ & Hnd' & Hreg & _).
    assert (Hcount : count_occ N.eq_dec log C = 1).
    { apply NoDup_count_occ_one; [auto|].
      apply (Hreg i env C Hi). rewrite Hscript.
      apply in_or_app. right. now left. }
    unfold OnCallNextTick in Hrun.
    destruct (tick_loop fuel script 0 self []) as [[log0 self0]|] eqn:Hloop;
      [|discriminate].
    injection Hrun as <- <-. simpl.
    pose proof (tick_loop_spec _ _ _ _ _ _ _ Hloop)
      as (ex1 & _ & _ & Hlog & _).
    simpl in Hlog. subst log0.
    assert (Hlt : 0 + i < length (pending_next_ticks_ self0))
      by (apply nth_error_Some; simpl; congruence).
    destruct (tick_loop_through_steps script i _ _ _ _ _ _ Hloop Hlt)
      as (fuel' & log1 & Hrest).
    simpl in Hrest.
    pose proof (tick_loop_spec _ _ _ _ _ _ _ Hrest) as (ex & Hex & _).
    destruct fuel' as [|fuel']; simpl in Hrest;
      destruct (nth_error (pending_next_ticks_ (tick_steps i script 0 self)) i)
        as [env'|] eqn:Hat; try discriminate;
      try (injection Hrest as _ <-; apply nth_error_None in Hat;
           simpl in Hlt; lia).
    assert (env' = env) as ->.
    { rewrite Hex, nth_error_app1 in Hi by (apply nth_error_Some; congruence).
      congruence. }
    rewrite Hscript, activate_all_app in Hrest.
    change (activate_all (C :: after)
              (activate_all before (tick_steps i script 0 self)))
      with (activate_all after (ActivateUVLoop C at_call)) in Hrest.
    pose proof (tick_loop_spec _ _ _ _ _ _ _ Hrest) as (e2 & Hp2 & Hs2 & _).
    destruct (activate_all_spec after (ActivateUVLoop C at_call))
      as (ea & Hpa & Hsa & _).
    destruct (activate_all_spec before (tick_steps i script 0 self))
      as (eb & Hpb & _).
    fold at_call in Hpb.
    assert (Hfinal : pending_next_ticks_ self0
                     = pending_next_ticks_ (ActivateUVLoop C at_call)
                       ++ (ea ++ e2))
      by (rewrite Hp2, Hpa; now rewrite app_assoc).
    assert (Hsends : call_next_tick_async_ self0
                     = call_next_tick_async_ (ActivateUVLoop C at_call)
                       + length ea + length e2)
      by (rewrite Hs2, Hsa; reflexivity).
    assert (Hhere : nth_error (pending_next_ticks_ at_call) i = Some env).
    { rewrite Hpb, nth_error_app1; [assumption|].
      apply nth_error_Some. congruence. }
    split.
    { destruct (in_dec N.eq_dec C (pending_next_ticks_ at_call)) as [Hin|Hin].
      - rewrite ActivateUVLoop_pending in Hfinal by assumption. eauto.
      - rewrite ActivateUVLoop_fresh in Hfinal by assumption.
        simpl in Hfinal. rewrite <- app_assoc in Hfinal. eauto. }
    split; [exact Hhere|].
    split; [|split; [|split; [exact Hcount|reflexivity]]].
    + intros Hin. split; [now apply ActivateUVLoop_fresh|].
      rewrite ActivateUVLoop_fresh in Hfinal, Hsends by assumption.
      simpl in Hfinal, Hsends. split; [|split].
      * rewrite Hfinal, <- app_assoc.
        rewrite nth_error_app2, Nat.sub_diag by lia. reflexivity.
      * apply nth_error_Some. congruence.
      * rewrite Hsends. lia.
    + intros Hin. now apply ActivateUVLoop_pending.
Qed.

Lemma reentrant_registration_same_drain_witness :
  NoDup (pending_next_ticks_ (mkBindings [1%N] 1))
  /\ (forall fuel log self',
        OnCallNextTick fuel (script_registering 1%N [2%N])
                       (mkBindings [1%N] 1) = Some (log, self') ->
        ActivateUVLoop 2%N (mkBindings [1%N] 1) = mkBindings [1%N; 2%N] 2
        /\ nth_error log 1 = Some 2%N
        /\ 2 <= call_next_tick_async_ self'
        /\ count_occ N.eq_dec log 2%N = 1
        /\ pending_next_ticks_ self' = []).
Proof.
  assert (Hnd : NoDup (pending_next_ticks_ (mkBindings [1%N] 1)))
    by (repeat constructor; intros []).
  split; [exact Hnd|].
  intros fuel log self' Hrun.
  destruct (reentrant_registration_same_drain
              (script_registering 1%N [2%N]) _ Hnd) as [_ Hpost].
  pose proof (OnCallNextTick_spec _ _ _ _ _ Hrun) as (extra & Hlog & _).
  assert (Hfirst : nth_error log 0 = Some 1%N) by (rewrite Hlog; reflexivity).
  destruct (Hpost fuel log self' Hrun 0 1%N [] 2%N [] Hfirst eq_refl)
    as (_ & _ & Hfresh & _ & Hc & Hp).
  destruct Hfresh as (Hact & Hvisit & _ & Hsend).
  - simpl. intros [E|[]]. discriminate.
  - repeat split; assumption.
Defined.

(** C3 as the spec words it fails: with [1] pending, script in the scope of
    [1] registers the environment [2], which was not pending; [2] is
    visited in that very drain and the list is empty afterwards.  And when
    script in the scope of [1] registers [1] itself, nothing is appended or
    sent, the list is cleared, and the next drain visits nothing. *)
Lemma reentrant_registration_not_deferred :
  In 2%N (script_registering 1%N [2%N] 0 1%N)
  /\ OnCallNextTick 2 (script_registering 1%N [2%N]) (mkBindings [1%N] 1)
     = Some ([1%N; 2%N], mkBindings [] 2)
  /\ In 1%N (script_registering 1%N [1%N] 0 1%N)
  /\ OnCallNextTick 1 (script_registering 1%N [1%N]) (mkBindings [1%N] 1)
     = Some ([1%N], mkBindings [] 1)
  /\ OnCallNextTick 1 quiet (mkBindings [] 1) = Some ([], mkBindings [] 1).
Proof.
  repeat split; try reflexivity; simpl; auto.
Qed.

(** C4.  In every state the dispatcher can reach, no environment occurs
    more than once in the pending list; and from a duplicate-free list each
    of [ActivateUVLoop], [EnvironmentDestroyed] and [OnCallNextTick] (its
    loop included, at whatever position it stands) yields a duplicate-free
    list again. *)
Theorem pending_at_most_once :
  (forall self, reachable self ->
     NoDup (pending_next_ticks_ self)
     /\ forall env, count_occ N.eq_dec (pending_next_ticks_ self) env <= 1)
  /\ (forall self, NoDup (pending_next_ticks_ self) ->
        (forall env, NoDup (pending_next_ticks_ (ActivateUVLoop env self)))
        /\ (forall env,
              NoDup (pending_next_ticks_ (EnvironmentDestroyed env self)))
        /\ (forall fuel script log self',
              OnCallNextTick fuel script self = Some (log, self') ->
              NoDup (pending_next_ticks_ self'))
        /\ (forall fuel script it log log' self',
              tick_loop fuel script it self log = Some (log', self') ->
              NoDup (pending_next_ticks_ self'))).
Proof.
  assert (Hreach : forall self, reachable self ->
                                NoDup (pending_next_ticks_ self)).
  { induction 1 as [|env self _ IH|env self _ IH
                    |fuel script self log self' _ IH Hrun].
    - constructor.
    - now apply ActivateUVLoop_NoDup.
    - now apply EnvironmentDestroyed_NoDup.
    - apply OnCallNextTick_spec in Hrun as (_ & _ & -> & _). constructor. }
  split.
  - intros self Hr. split; [auto|]. now apply NoDup_count_occ, Hreach.
  - intros self Hnd. repeat split.
    + intros env. now apply ActivateUVLoop_NoDup.
    + intros env. now apply EnvironmentDestroyed_NoDup.
    + intros fuel script log self' Hrun.
      apply OnCallNextTick_spec in Hrun as (_ & _ & -> & _). constructor.
    + intros fuel script it log log' self' Hrun.
      apply tick_loop_spec in Hrun as (_ & _ & _ & _ & H & _). auto.
Qed.

Lemma pending_at_most_once_witness :
  reachable (EnvironmentDestroyed 1%N
               (ActivateUVLoop 2%N (ActivateUVLoop 1%N init)))
  /\ NoDup (pending_next_ticks_
              (EnvironmentDestroyed 1%N
                 (ActivateUVLoop 2%N (ActivateUVLoop 1%N init)))).
Proof.
  assert (Hr : reachable (EnvironmentDestroyed 1%N
                            (ActivateUVLoop 2%N (ActivateUVLoop 1%N init))))
    by (repeat constructor).
  split; [exact Hr|].
  exact (proj1 (proj1 pending_at_most_once _ Hr)).
Defined.

(** C5.  [EnvironmentDestroyed C] on a (duplicate-free) list that holds [C]
    takes [C] out of it and keeps the other entries, and an
    [OnCallNextTick] that follows, during which script does not register
    [C] anew, returns without having visited [C]. *)
Theorem EnvironmentDestroyed_removes_pending (self : ElectronBindings)
    (C : Environment) :
  NoDup (pending_next_ticks_ self) ->
  In C (pending_next_ticks_ self) ->
  ~ In C (pending_next_ticks_ (EnvironmentDestroyed C self))
  /\ (forall x, x <> C ->
        (In x (pending_next_ticks_ (EnvironmentDestroyed C self))
         <-> In x (pending_next_ticks_ self)))
  /\ (forall script, (forall i env, ~ In C (script i env)) ->
        (forall live,
           incl (pending_next_ticks_ (EnvironmentDestroyed C self)) live ->
           bounded script live ->
           exists r, OnCallNextTick (length live) script
                                    (EnvironmentDestroyed C self) = Some r)
        /\ (forall fuel log self',
              OnCallNextTick fuel script (EnvironmentDestroyed C self)
              = Some (log, self') ->
              ~ In C log)).
Proof.
  intros Hnd Hin.
  assert (Hgone : ~ In C (pending_next_ticks_ (EnvironmentDestroyed C self))).
  { rewrite EnvironmentDestroyed_present by assumption. simpl.
    now apply erase_find_gone. }
  split; [assumption|]. split.
  { intros x Hx. rewrite EnvironmentDestroyed_present by assumption. simpl.
    split; [apply erase_find_In|now apply erase_find_others]. }
  intros script Hscript. split.
  - intros live Hincl Hb. apply OnCallNextTick_returns; auto.
    now apply EnvironmentDestroyed_NoDup.
  - intros fuel log self' Hrun HC.
    apply OnCallNextTick_spec in Hrun as (extra & -> & _ & _ & _ & _ & Hfrom).
    apply in_app_or in HC as [HC|HC]; [contradiction|].
    destruct (Hfrom C HC) as (i & env & _ & HCi).
    exact (Hscript i env HCi).
Qed.

Lemma EnvironmentDestroyed_removes_pending_witness :
  NoDup (pending_next_ticks_ (mkBindings [1%N; 2%N] 2))
  /\ In 1%N (pending_next_ticks_ (mkBindings [1%N; 2%N] 2))
  /\ ~ In 1%N (pending_next_ticks_
                 (EnvironmentDestroyed 1%N (mkBindings [1%N; 2%N] 2)))
  /\ (forall fuel log self',
        OnCallNextTick fuel quiet
                       (EnvironmentDestroyed 1%N (mkBindings [1%N; 2%N] 2))
        = Some (log, self') ->
        ~ In 1%N log).
Proof.
  assert (Hnd : NoDup (pending_next_ticks_ (mkBindings [1%N; 2%N] 2)))
    by (apply NoDup_two; discriminate).
  assert (Hin : In 1%N (pending_next_ticks_ (mkBindings [1%N; 2%N] 2)))
    by (simpl; auto).
  split; [exact Hnd|]. split; [exact Hin|].
  destruct (EnvironmentDestroyed_removes_pending _ _ Hnd Hin)
    as (Hgone & _ & Hnext).
  split; [exact Hgone|].
  apply (Hnext quiet). intros i env [].
Defined.

(** C6.  [EnvironmentDestroyed C] on a list that does not hold [C] leaves
    the bindings as they are: same list, same entries in the same order. *)
Theorem EnvironmentDestroyed_not_pending_noop (self : ElectronBindings)
    (C : Environment) :
  ~ In C (pending_next_ticks_ self) -> EnvironmentDestroyed C self = self.
Proof. apply EnvironmentDestroyed_absent. Qed.

Lemma EnvironmentDestroyed_not_pending_noop_witness :
  ~ In 3%N (pending_next_ticks_ (mkBindings [1%N; 2%N] 2))
  /\ EnvironmentDestroyed 3%N (mkBindings [1%N; 2%N] 2)
     = mkBindings [1%N; 2%N] 2.
Proof.
  assert (H : ~ In 3%N (pending_next_ticks_ (mkBindings [1%N; 2%N] 2)))
    by (simpl; intros [E|[E|[]]]; discriminate).
  split; [exact H|].
  exact (EnvironmentDestroyed_not_pending_noop _ _ H).
Defined.

(** C7.  With [A] and [B] distinct and nothing pending: registering [A],
    [B], [A] gives the list [[A; B]] (two sends); [OnCallNextTick] then
    visits [A], then [B], and empties the list (script in their scopes
    registering at most [A] and [B] again); registering [A] after that
    gives the list [[A]]. *)
Theorem register_drain_register_scenario (A B : Environment) (n : nat) :
  A <> B ->
  ActivateUVLoop A (ActivateUVLoop B (ActivateUVLoop A (mkBindings [] n)))
  = mkBindings [A; B] (S (S n))
  /\ (forall fuel script,
        2 <= fuel ->
        incl (script 0 A) [A; B] -> incl (script 1 B) [A; B] ->
        OnCallNextTick fuel script (mkBindings [A; B] (S (S n)))
        = Some ([A; B], mkBindings [] (S (S n))))
  /\ ActivateUVLoop A (mkBindings [] (S (S n)))
     = mkBindings [A] (S (S (S n))).
Proof.
  intros Hne.
  assert (HB : ~ In B [A]) by (intros [E|[]]; congruence).
  split; [|split].
  - rewrite (ActivateUVLoop_fresh A (mkBindings [] n)) by (intros []).
    simpl. rewrite (ActivateUVLoop_fresh B) by exact HB. simpl.
    apply ActivateUVLoop_pending. simpl. auto.
  - intros fuel script Hfuel HA HB'.
    destruct fuel as [|[|fuel]]; try lia.
    unfold OnCallNextTick. simpl.
    rewrite (activate_all_pending (script 0 A)) by exact HA. simpl.
    rewrite (activate_all_pending (script 1 B)) by exact HB'. simpl.
    now destruct fuel.
  - apply ActivateUVLoop_fresh. intros [].
Qed.

Lemma register_drain_register_scenario_witness :
  1%N <> 2%N
  /\ ActivateUVLoop 1%N (ActivateUVLoop 2%N (ActivateUVLoop 1%N init))
     = mkBindings [1%N; 2%N] 2
  /\ OnCallNextTick 2 quiet (mkBindings [1%N; 2%N] 2)
     = Some ([1%N; 2%N], mkBindings [] 2)
  /\ ActivateUVLoop 1%N (mkBindings [] 2) = mkBindings [1%N] 3.
Proof.
  assert (Hne : 1%N <> 2%N) by discriminate.
  split; [exact Hne|].
  destruct (register_drain_register_scenario 1%N 2%N 0 Hne) as (H1 & H2 & H3).
  split; [exact H1|]. split; [|exact H3].
  apply H2; [lia| |]; intros x [].
Defined.

(** C8.  [OnCallNextTick] on an empty pending list returns at once: no
    scope is entered and the bindings are as before.  That is the state
    after registering [A] and destroying it again before any wake. *)
Theorem OnCallNextTick_empty_noop (fuel : nat) (script : Script) (n : nat) :
  OnCallNextTick fuel script (mkBindings [] n) = Some ([], mkBindings [] n)
  /\ forall A,
       EnvironmentDestroyed A (ActivateUVLoop A (mkBindings [] n))
       = mkBindings [] (S n)
       /\ OnCallNextTick fuel script
            (EnvironmentDestroyed A (ActivateUVLoop A (mkBindings [] n)))
          = Some ([], mkBindings [] (S n)).
Proof.
  assert (Hempty : forall m, OnCallNextTick fuel script (mkBindings [] m)
                             = Some ([], mkBindings [] m))
    by (intros m; now destruct fuel).
  split; [apply Hempty|].
  intros A.
  assert (E : EnvironmentDestroyed A (ActivateUVLoop A (mkBindings [] n))
              = mkBindings [] (S n)).
  { rewrite ActivateUVLoop_fresh by (intros []). simpl.
    rewrite EnvironmentDestroyed_present by (simpl; auto). simpl.
    now rewrite N.eqb_refl. }
  rewrite E. split; [reflexivity|apply Hempty].
Qed.

(** * Properties of the shell glue *)

Import Shell.

Lemma GetNext_exhausted {T : Type} `{Converter T} (args : Arguments) (out : T) :
  length (info_ args) <= next_ args ->
  GetNext args out
  = (false, out, mkArguments (info_ args) (next_ args) true).
Proof.
  intros Hle. unfold GetNext.
  now rewrite (proj2 (Nat.leb_le _ _) Hle).
Qed.

(** With a second argument the flag is that argument's truth value, so the
    default below is a default and not a constant. *)
Lemma MoveItemToTrash_flag_given (FilePath : Type) (empty_path : FilePath)
    (Converter_FilePath : Converter FilePath)
    (platform_util_MoveItemToTrash : FilePath -> bool -> bool)
    (path flag : V8Value) :
  MoveItemToTrash empty_path platform_util_MoveItemToTrash
                  (call_with [path; flag])
  = platform_util_MoveItemToTrash (snd (FromV8 path empty_path))
                                  (BooleanValue flag).
Proof.
  unfold MoveItemToTrash, GetNext, call_with. simpl.
  now destruct (FromV8 path empty_path).
Qed.

(** C9.  Called with one argument only, [MoveItemToTrash] hands the
    platform's trash operation the path converted from that argument and
    [false] as the delete-on-fail flag, whatever the path converter and the
    platform operation are. *)
Theorem MoveItemToTrash_delete_on_fail_default (FilePath : Type)
    (empty_path : FilePath) (Converter_FilePath : Converter FilePath)
    (platform_util_MoveItemToTrash : FilePath -> bool -> bool)
    (path : V8Value) :
  MoveItemToTrash empty_path platform_util_MoveItemToTrash (call_with [path])
  = platform_util_MoveItemToTrash (snd (FromV8 path empty_path)) false.
Proof.
  unfold MoveItemToTrash.
  unfold GetNext at 1. unfold call_with. cbn [info_ next_ length Nat.leb nth].
  destruct (FromV8 path empty_path) as [ok full_path].
  cbn [insufficient_arguments_ snd].
  now rewrite GetNext_exhausted by (simpl; lia).
Qed.

Example ShortcutOperation_FromV8_replace :
  FromV8 (V8String "replace") SHORTCUT_CREATE_ALWAYS
  = (true, SHORTCUT_REPLACE_EXISTING).
Proof. reflexivity. Qed.

Example ShortcutOperation_FromV8_case_matters :
  FromV8 (V8String "Update") SHORTCUT_CREATE_ALWAYS
  = (false, SHORTCUT_CREATE_ALWAYS).
Proof. reflexivity. Qed.

Example ShortcutOperation_FromV8_not_a_string :
  FromV8 (V8Number 1) SHORTCUT_UPDATE_EXISTING
  = (false, SHORTCUT_UPDATE_EXISTING).
Proof. reflexivity. Qed.

Lemma length_zero_empty (s : string) :
  (String.length s =? 0) = true <-> s = EmptyString.
Proof. destruct s; simpl; split; congruence. Qed.

(** C10.  On a string the [ShortcutOperation] converter answers true
    exactly for the empty string, [create], [update] and [replace]: the
    first two give [SHORTCUT_CREATE_ALWAYS], then
    [SHORTCUT_UPDATE_EXISTING] and [SHORTCUT_REPLACE_EXISTING]; on any
    other string it answers false and leaves [out] as it was. *)
Theorem ShortcutOperation_FromV8_strings (s : string)
    (out : ShortcutOperation) :
  (s = EmptyString \/ s = "create"%string ->
     FromV8 (V8String s) out = (true, SHORTCUT_CREATE_ALWAYS))
  /\ (s = "update"%string ->
        FromV8 (V8String s) out = (true, SHORTCUT_UPDATE_EXISTING))
  /\ (s = "replace"%string ->
        FromV8 (V8String s) out = (true, SHORTCUT_REPLACE_EXISTING))
  /\ (s <> EmptyString -> s <> "create"%string -> s <> "update"%string ->
      s <> "replace"%string ->
        FromV8 (V8String s) out = (false, out))
  /\ (fst (FromV8 (V8String s) out) = true
      <-> s = EmptyString \/ s = "create"%string \/ s = "update"%string
          \/ s = "replace"%string).
Proof.
  unfold FromV8, Converter_ShortcutOperation, FromV8, Converter_string. simpl.
  destruct (String.length s =? 0) eqn:Hlen; simpl.
  - apply length_zero_empty in Hlen. subst s. simpl.
    repeat split; try congruence; auto.
  - assert (Hs : s <> EmptyString)
      by (intros ->; discriminate).
    destruct (String.eqb_spec s "create") as [->|Hc]; simpl;
      [repeat split; try congruence; auto|].
    destruct (String.eqb_spec s "update") as [->|Hu]; simpl;
      [repeat split; try congruence; auto; intros [E|E]; discriminate|].
    destruct (String.eqb_spec s "replace") as [->|Hr]; simpl;
      [repeat split; try congruence; auto; intros [E|E]; discriminate|].
    repeat split; try congruence; tauto.
Qed.

Lemma ShortcutOperation_FromV8_strings_witness :
  ("update"%string = "update"%string
   /\ FromV8 (V8String "update") SHORTCUT_CREATE_ALWAYS
      = (true, SHORTCUT_UPDATE_EXISTING))
  /\ ("Create"%string <> EmptyString
      /\ FromV8 (V8String "Create") SHORTCUT_REPLACE_EXISTING
         = (false, SHORTCUT_REPLACE_EXISTING)).
Proof.
  split.
  - split; [reflexivity|].
    exact (proj1 (proj2 (ShortcutOperation_FromV8_strings
                           "update" SHORTCUT_CREATE_ALWAYS)) eq_refl).
  - split; [discriminate|].
    apply (proj2 (proj2 (proj2 (ShortcutOperation_FromV8_strings
                                  "Create" SHORTCUT_REPLACE_EXISTING))));
      discriminate.
Defined.

(** * Further properties of the dispatcher *)

Import Dispatch.

Lemma filter_absent (l : list Environment) (env : Environment) :
  ~ In env l -> filter (fun x => negb (N.eqb x env)) l = l.
Proof.
  induction l as [|y t IH]; intros Hin; simpl; [reflexivity|].
  destruct (N.eqb_spec y env) as [->|Hne]; simpl.
  - exfalso. apply Hin. now left.
  - f_equal. apply IH. intros H. apply Hin. now right.
Qed.

Lemma erase_find_filter (l : list Environment) (env : Environment) :
  NoDup l ->
  erase l (std_find l env) = filter (fun x => negb (N.eqb x env)) l.
Proof.
  induction 1 as [|y t Hy Hnd IH]; simpl; [reflexivity|].
  destruct (N.eqb_spec y env) as [->|Hne]; simpl.
  - symmetry. now apply filter_absent.
  - now rewrite IH.
Qed.

Lemma erase_find_length (l : list Environment) (env : Environment) :
  In env l -> length l = S (length (erase l (std_find l env))).
Proof.
  induction l as [|y t IH]; simpl; [tauto|].
  destruct (N.eqb_spec y env) as [->|Hne]; simpl; [reflexivity|].
  intros [E|Hin]; [congruence|]. now rewrite <- IH.
Qed.

Lemma std_find_app_last (l : list Environment) (env : Environment) :
  ~ In env l -> std_find (l ++ [env]) env = length l.
Proof.
  induction l as [|y t IH]; intros Hin; simpl.
  - now rewrite N.eqb_refl.
  - destruct (N.eqb_spec y env) as [->|Hne].
    + exfalso. apply Hin. now left.
    + f_equal. apply IH. intros H. apply Hin. now right.
Qed.

Lemma erase_app_last (l : list Environment) (x : Environment) :
  erase (l ++ [x]) (length l) = l.
Proof. induction l as [|y t IH]; simpl; [reflexivity|now rewrite IH]. Qed.

(** X1.  [EnvironmentDestroyed C] keeps every other entry of a
    duplicate-free pending list, in the order they were in, and sends
    nothing on the handle; on any list that holds [C] it shortens the list
    by exactly one entry. *)
Theorem EnvironmentDestroyed_keeps_order (self : ElectronBindings)
    (C : Environment) :
  (NoDup (pending_next_ticks_ self) ->
     EnvironmentDestroyed C self
     = mkBindings (filter (fun x => negb (N.eqb x C))
                          (pending_next_ticks_ self))
                  (call_next_tick_async_ self))
  /\ (In C (pending_next_ticks_ self) ->
        length (pending_next_ticks_ self)
        = S (length (pending_next_ticks_ (EnvironmentDestroyed C self)))).
Proof.
  split.
  - intros Hnd.
    destruct (in_dec N.eq_dec C (pending_next_ticks_ self)) as [Hin|Hin].
    + rewrite EnvironmentDestroyed_present by assumption.
      now rewrite erase_find_filter.
    + rewrite EnvironmentDestroyed_absent, filter_absent by assumption.
      now destruct self.
  - intros Hin. rewrite EnvironmentDestroyed_present by assumption. simpl.
    now apply erase_find_length.
Qed.

Lemma EnvironmentDestroyed_keeps_order_witness :
  NoDup (pending_next_ticks_ (mkBindings [4%N; 9%N; 6%N] 3))
  /\ In 9%N (pending_next_ticks_ (mkBindings [4%N; 9%N; 6%N] 3))
  /\ EnvironmentDestroyed 9%N (mkBindings [4%N; 9%N; 6%N] 3)
     = mkBindings [4%N; 6%N] 3.
Proof.
  assert (Hnd : NoDup (pending_next_ticks_ (mkBindings [4%N; 9%N; 6%N] 3))).
  { simpl. repeat constructor; simpl; intros H;
      repeat (destruct H as [H|H]; try discriminate H); exact H. }
  split; [exact Hnd|]. split; [simpl; auto|].
  exact (proj1 (EnvironmentDestroyed_keeps_order _ 9%N) Hnd).
Defined.

(** X2.  Registering an environment that is not pending and then
    destroying it gives back the pending list as it was; the one send made
    for it stays made. *)
Theorem register_then_destroy (self : ElectronBindings) (C : Environment) :
  ~ In C (pending_next_ticks_ self) ->
  EnvironmentDestroyed C (ActivateUVLoop C self)
  = mkBindings (pending_next_ticks_ self) (S (call_next_tick_async_ self)).
Proof.
  intros Hin. rewrite ActivateUVLoop_fresh by assumption.
  rewrite EnvironmentDestroyed_present
    by (simpl; apply in_or_app; right; now left).
  simpl. now rewrite std_find_app_last, erase_app_last.
Qed.

Lemma register_then_destroy_witness :
  ~ In 3%N (pending_next_ticks_ (mkBindings [1%N; 2%N] 2))
  /\ EnvironmentDestroyed 3%N (ActivateUVLoop 3%N (mkBindings [1%N; 2%N] 2))
     = mkBindings [1%N; 2%N] 3.
Proof.
  assert (H : ~ In 3%N (pending_next_ticks_ (mkBindings [1%N; 2%N] 2)))
    by (simpl; intros [E|[E|[]]]; discriminate).
  split; [exact H|].
  exact (register_then_destroy _ _ H).
Defined.

Lemma apply_call_accounting (c : call) (self : ElectronBindings) :
  call_next_tick_async_ self <= call_next_tick_async_ (apply_call c self)
  /\ length (pending_next_ticks_ (apply_call c self))
     + call_next_tick_async_ self
     <= length (pending_next_ticks_ self)
        + call_next_tick_async_ (apply_call c self).
Proof.
  destruct c as [env|env]; simpl;
    destruct (in_dec N.eq_dec env (pending_next_ticks_ self)) as [Hin|Hin].
  - rewrite ActivateUVLoop_pending by assumption. lia.
  - rewrite ActivateUVLoop_fresh by assumption. simpl.
    rewrite length_app. simpl. lia.
  - pose proof (erase_find_length _ _ Hin).
    rewrite EnvironmentDestroyed_present by assumption. simpl. lia.
  - rewrite EnvironmentDestroyed_absent by assumption. lia.
Qed.

(** X3.  Over any sequence of [ActivateUVLoop] and [EnvironmentDestroyed]
    calls the handle is sent on at least once for each entry the pending
    list has gained, and the count of sends never goes down.  So when the
    list was empty and is not any more, a wake-up has been asked for in
    between. *)
Theorem sends_cover_pending (cs : list call) (self : ElectronBindings) :
  call_next_tick_async_ self <= call_next_tick_async_ (apply_calls cs self)
  /\ length (pending_next_ticks_ (apply_calls cs self))
     + call_next_tick_async_ self
     <= length (pending_next_ticks_ self)
        + call_next_tick_async_ (apply_calls cs self)
  /\ (pending_next_ticks_ self = [] ->
      pending_next_ticks_ (apply_calls cs self) <> [] ->
      call_next_tick_async_ self
      < call_next_tick_async_ (apply_calls cs self)).
Proof.
  assert (H : call_next_tick_async_ self
              <= call_next_tick_async_ (apply_calls cs self)
              /\ length (pending_next_ticks_ (apply_calls cs self))
                 + call_next_tick_async_ self
                 <= length (pending_next_ticks_ self)
                    + call_next_tick_async_ (apply_calls cs self)).
  { revert self. induction cs as [|c cs IH]; intros self.
    - simpl. lia.
    - change (apply_calls (c :: cs) self)
        with (apply_calls cs (apply_call c self)).
      pose proof (apply_call_accounting c self).
      pose proof (IH (apply_call c self)). lia. }
  destruct H as [H1 H2]. repeat split; try assumption.
  intros Hempty Hne. rewrite Hempty in H2. simpl in H2.
  destruct (pending_next_ticks_ (apply_calls cs self)); [congruence|].
  simpl in H2. lia.
Qed.

Lemma sends_cover_pending_witness :
  pending_next_ticks_ (mkBindings [] 5) = []
  /\ pending_next_ticks_
       (apply_calls [Activate 1%N; Activate 2%N; Destroyed 1%N; Activate 2%N]
                    (mkBindings [] 5)) <> []
  /\ 5 < call_next_tick_async_
           (apply_calls [Activate 1%N; Activate 2%N; Destroyed 1%N;
                         Activate 2%N] (mkBindings [] 5)).
Proof.
  assert (H1 : pending_next_ticks_ (mkBindings [] 5) = []) by reflexivity.
  assert (H2 : pending_next_ticks_
                 (apply_calls [Activate 1%N; Activate 2%N; Destroyed 1%N;
                               Activate 2%N] (mkBindings [] 5)) <> [])
    by (vm_compute; discriminate).
  split; [exact H1|]. split; [exact H2|].
  exact (proj2 (proj2 (sends_cover_pending _ _)) H1 H2).
Defined.

(** The loop when script registers nothing new: it walks the rest of the
    list and leaves the bindings alone. *)
Lemma tick_loop_nothing_new (script : Script) (fuel : nat) :
  forall (it : iterator) (self : ElectronBindings) (log : list Environment),
  (forall i env, incl (script i env) (pending_next_ticks_ self)) ->
  length (pending_next_ticks_ self) - it <= fuel ->
  tick_loop fuel script it self log
  = Some (log ++ skipn it (pending_next_ticks_ self), self).
Proof.
  induction fuel as [|fuel IH]; intros it self log Hscript Hfuel; simpl;
    destruct (nth_error (pending_next_ticks_ self) it) as [env|] eqn:Hit.
  - assert (nth_error (pending_next_ticks_ self) it <> None) as Hlt
      by congruence.
    apply nth_error_Some in Hlt. lia.
  - apply nth_error_None in Hit. now rewrite skipn_all2, app_nil_r.
  - rewrite activate_all_pending by apply Hscript.
    rewrite IH by (auto; lia).
    now rewrite <- app_assoc, (skipn_nth_error _ _ _ Hit).
  - apply nth_error_None in Hit. now rewrite skipn_all2, app_nil_r.
Qed.

(** X4.  [OnCallNextTick] itself never sends on the handle: over a drain
    the sends grow by exactly the number of visits beyond the entries that
    were pending at entry.  When script registers nothing but what is
    pending already, the drain visits exactly the pending list, in order,
    and leaves the send count as it was. *)
Theorem OnCallNextTick_send_accounting (script : Script)
    (self : ElectronBindings) :
  (forall fuel log self',
     OnCallNextTick fuel script self = Some (log, self') ->
     call_next_tick_async_ self' + length (pending_next_ticks_ self)
     = call_next_tick_async_ self + length log)
  /\ ((forall i env, incl (script i env) (pending_next_ticks_ self)) ->
      forall fuel, length (pending_next_ticks_ self) <= fuel ->
        OnCallNextTick fuel script self
        = Some (pending_next_ticks_ self,
                mkBindings [] (call_next_tick_async_ self))).
Proof.
  split.
  - intros fuel log self' Hrun.
    apply OnCallNextTick_spec in Hrun as (extra & -> & _ & -> & _).
    rewrite length_app. lia.
  - intros Hscript fuel Hfuel. unfold OnCallNextTick.
    now rewrite tick_loop_nothing_new by (auto; lia).
Qed.

Lemma OnCallNextTick_send_accounting_witness :
  (forall i env, incl (script_registering 2%N [1%N; 2%N] i env)
                      (pending_next_ticks_ (mkBindings [1%N; 2%N; 1%N] 4)))
  /\ OnCallNextTick 3 (script_registering 2%N [1%N; 2%N])
                    (mkBindings [1%N; 2%N; 1%N] 4)
     = Some ([1%N; 2%N; 1%N], mkBindings [] 4).
Proof.
  assert (H : forall i env,
             incl (script_registering 2%N [1%N; 2%N] i env)
                  (pending_next_ticks_ (mkBindings [1%N; 2%N; 1%N] 4))).
  { intros i env. apply bounded_script_registering.
    intros x Hx. simpl in *. tauto. }
  split; [exact H|].
  apply (proj2 (OnCallNextTick_send_accounting _ _) H). simpl. lia.
Defined.





(** X13.  An environment that is destroyed while pending and registered
    again does not get its old place back: it goes to the end of the list,
    behind everything that was pending, and one more send is made. *)
Theorem destroy_then_register_moves_last (self : ElectronBindings)
    (C : Environment) :
  NoDup (pending_next_ticks_ self) ->
  ActivateUVLoop C (EnvironmentDestroyed C self)
  = mkBindings (filter (fun x => negb (N.eqb x C))
                       (pending_next_ticks_ self) ++ [C])
               (S (call_next_tick_async_ self)).
Proof.
  intros Hnd.
  assert (Hgone : ~ In C (pending_next_ticks_ (EnvironmentDestroyed C self))).
  { destruct (in_dec N.eq_dec C (pending_next_ticks_ self)) as [Hin|Hin].
    - rewrite EnvironmentDestroyed_present by assumption. simpl.
      now apply erase_find_gone.
    - now rewrite EnvironmentDestroyed_absent. }
  rewrite ActivateUVLoop_fresh by assumption.
  destruct (in_dec N.eq_dec C (pending_next_ticks_ self)) as [Hin|Hin].
  - rewrite EnvironmentDestroyed_present by assumption. simpl.
    now rewrite erase_find_filter.
  - rewrite EnvironmentDestroyed_absent by assumption.
    now rewrite filter_absent.
Qed.

Lemma destroy_then_register_moves_last_witness :
  NoDup (pending_next_ticks_ (mkBindings [1%N; 2%N] 2))
  /\ ActivateUVLoop 1%N (EnvironmentDestroyed 1%N (mkBindings [1%N; 2%N] 2))
     = mkBindings [2%N; 1%N] 3.
Proof.
  assert (Hnd : NoDup (pending_next_ticks_ (mkBindings [1%N; 2%N] 2)))
    by (apply NoDup_two; discriminate).
  split; [exact Hnd|].
  exact (destroy_then_register_moves_last _ 1%N Hnd).
Defined.

(** * Properties of the memory figures *)

Import Glue Memory.

Lemma process_dumps_loop_find (linux : bool) (current : Z)
    (dumps : list ProcessDump) (promise : Promise Dictionary) :
  process_dumps_loop linux current dumps promise false
  = match find (fun dump => (current =? pid dump)%Z) dumps with
    | Some dump => (resolve_with_dump linux promise dump, true)
    | None => (promise, false)
    end.
Proof.
  induction dumps as [|dump rest IH]; simpl; [reflexivity|].
  now destruct (current =? pid dump)%Z.
Qed.

(** X6.  [DidReceiveMemoryDump] makes one call on the promise.  Without
    [success] it rejects with the create-dump message, whatever the dumps
    hold.  With it, it resolves with the figures of the first process dump
    carrying the current pid (later dumps with that pid are not looked at)
    and rejects with the not-found message when no dump carries it.  The
    dictionary has [private] and [shared], and [residentSet] before them
    exactly on Linux and Windows. *)
Theorem DidReceiveMemoryDump_outcome (linux : bool) (current : Z)
    (promise : Promise Dictionary) (success : bool)
    (dumps : list ProcessDump) :
  exists settle,
    DidReceiveMemoryDump linux current promise success dumps
    = promise ++ [settle]
    /\ (success = false ->
        settle = RejectWithErrorMessage "Failed to create memory dump")
    /\ (success = true ->
        find (fun dump => (current =? pid dump)%Z) dumps = None ->
        settle = RejectWithErrorMessage
          "Failed to find current process memory details in memory dump")
    /\ (success = true ->
        forall dump,
          find (fun dump => (current =? pid dump)%Z) dumps = Some dump ->
          exists dict,
            settle = Resolve dict
            /\ Dictionary_Get "private" dict
               = Some (V8Number (private_footprint_kb (os_dump dump)))
            /\ Dictionary_Get "shared" dict
               = Some (V8Number (shared_footprint_kb (os_dump dump)))
            /\ Dictionary_Get "residentSet" dict
               = (if linux
                  then Some (V8Number (resident_set_kb (os_dump dump)))
                  else None)
            /\ map fst (properties dict)
               = (if linux
                  then ["residentSet"; "private"; "shared"]%string
                  else ["private"; "shared"]%string)).
Proof.
  unfold DidReceiveMemoryDump. destruct success; simpl.
  - rewrite process_dumps_loop_find.
    destruct (find (fun dump => (current =? pid dump)%Z) dumps)
      as [dump|] eqn:Hfind; simpl.
    + eexists. split; [reflexivity|].
      split; [discriminate|]. split; [discriminate|].
      intros _ dump' [= <-]. eexists. split; [reflexivity|].
      destruct linux; repeat split; reflexivity.
    + eexists. split; [reflexivity|].
      split; [discriminate|]. split; [reflexivity|]. discriminate.
  - eexists. split; [reflexivity|].
    split; [reflexivity|]. split; discriminate.
Qed.

Lemma DidReceiveMemoryDump_outcome_witness :
  find (fun dump => (42 =? pid dump)%Z)
       [mkProcessDump 7 (mkOSMemDump 1 2 3);
        mkProcessDump 42 (mkOSMemDump 700 500 60);
        mkProcessDump 42 (mkOSMemDump 9 9 9)]
  = Some (mkProcessDump 42 (mkOSMemDump 700 500 60))
  /\ exists dict,
       DidReceiveMemoryDump false 42 [] true
         [mkProcessDump 7 (mkOSMemDump 1 2 3);
          mkProcessDump 42 (mkOSMemDump 700 500 60);
          mkProcessDump 42 (mkOSMemDump 9 9 9)]
       = [Resolve dict]
       /\ Dictionary_Get "private" dict = Some (V8Number 500)
       /\ Dictionary_Get "residentSet" dict = None.
Proof.
  split; [reflexivity|].
  destruct (DidReceiveMemoryDump_outcome false 42 [] true
              [mkProcessDump 7 (mkOSMemDump 1 2 3);
               mkProcessDump 42 (mkOSMemDump 700 500 60);
               mkProcessDump 42 (mkOSMemDump 9 9 9)])
    as (settle & Hrun & _ & _ & Hfound).
  destruct (Hfound eq_refl _ eq_refl) as (dict & -> & Hp & _ & Hr & _).
  exists dict. repeat split; assumption.
Defined.

(** X7.  The promise of [getProcessMemoryInfo] is settled at most once,
    and exactly once as soon as the function rejected on the spot or the
    memory instrumentation has answered.  It rejects on the spot exactly
    in a browser process that is not ready, and then asks for no dump: an
    answer changes nothing.  It is resolved only if a dump was asked for
    and the answer was a success holding a dump of the current pid. *)
Theorem memory_info_promise_settles_once (linux : bool) (current : Z)
    (IsBrowserProcess is_ready : bool)
    (answer : option (bool * list ProcessDump)) :
  let promise :=
    memory_info_promise linux current IsBrowserProcess is_ready answer in
  length promise <= 1
  /\ (length promise = 1
      <-> (IsBrowserProcess = true /\ is_ready = false) \/ answer <> None)
  /\ (IsBrowserProcess = true -> is_ready = false ->
      promise = [RejectWithErrorMessage
                   "Memory Info is available only after app ready"])
  /\ (forall dict, In (Resolve dict) promise ->
        (IsBrowserProcess = false \/ is_ready = true)
        /\ exists dumps dump,
             answer = Some (true, dumps)
             /\ find (fun dump => (current =? pid dump)%Z) dumps
                = Some dump).
Proof.
  intros promise.
  destruct (IsBrowserProcess && negb is_ready) eqn:Hearly.
  - apply andb_true_iff in Hearly as [-> Hready].
    apply negb_true_iff in Hready. subst is_ready.
    subst promise. unfold memory_info_promise, GetProcessMemoryInfo. simpl.
    split; [lia|]. split; [split; auto|]. split; [reflexivity|].
    intros dict [H|[]]. discriminate.
  - assert (Hlate : IsBrowserProcess = false \/ is_ready = true)
      by (destruct IsBrowserProcess, is_ready; auto; discriminate).
    assert (Hnot : ~ (IsBrowserProcess = true /\ is_ready = false))
      by (intros [-> ->]; discriminate).
    subst promise. unfold memory_info_promise, GetProcessMemoryInfo.
    rewrite Hearly.
    destruct answer as [[success dumps]|].
    + destruct (DidReceiveMemoryDump_outcome linux current [] success dumps)
        as (settle & -> & Hfail & Hnone & Hfound).
      simpl. split; [lia|]. split; [split; auto; right; discriminate|].
      split; [intros H1 H2; tauto|].
      intros dict0 [->|[]]. split; [assumption|].
      destruct success; [|specialize (Hfail eq_refl); discriminate].
      destruct (find (fun dump => (current =? pid dump)%Z) dumps)
        as [dump|] eqn:Hfind; [eauto|].
      specialize (Hnone eq_refl eq_refl). discriminate.
    + simpl. split; [lia|].
      split; [split; [discriminate|intros [H|H]; tauto]|].
      split; [intros H1 H2; tauto|]. intros dict0 [].
Qed.

Section Kilobytes.

Local Open Scope Z_scope.

Lemma static_cast_double_exact (n : Z) :
  0 <= n < 2 ^ 53 -> static_cast_double n = n.
Proof.
  intros [Hpos Hlt]. unfold static_cast_double.
  assert (Hlog : Z.log2 n <= 52).
  { destruct (Z.eq_dec n 0) as [->|Hne]; [discriminate|].
    assert (Z.log2 n < 53) by (apply Z.log2_lt_pow2; lia). lia. }
  now rewrite Z.max_l by lia.
Qed.

Lemma static_cast_double_near (n : Z) :
  2 ^ 53 <= n < 2 ^ 54 ->
  static_cast_double n
  = if Z.even n then n else if n mod 4 =? 1 then n - 1 else n + 1.
Proof.
  intros Hn. unfold static_cast_double.
  assert (Hlog : Z.log2 n = 53) by (apply Z.log2_unique; [lia|exact Hn]).
  rewrite Hlog. change (Z.max 0 (53 - 52)) with 1.
  cbv zeta. change (1 =? 0) with false. cbv iota.
  change (Z.shiftl 1 (1 - 1)) with 1.
  rewrite !Z.shiftl_mul_pow2, Z.shiftr_div_pow2 by lia.
  change (2 ^ 1) with 2.
  pose proof (Zmod_even n) as He. pose proof (Zmod_odd (n / 2)) as Ho.
  destruct (Z.even n); destruct (Z.odd (n / 2));
    destruct (Z.ltb_spec 1 (n - n / 2 * 2));
    destruct (Z.eqb_spec (n - n / 2 * 2) 1);
    destruct (Z.eqb_spec (n mod 4) 1); simpl;
    Z.div_mod_to_equations; lia.
Qed.

Lemma static_cast_double_bounds (n : Z) :
  0 <= n < 2 ^ 54 -> n - 1 <= static_cast_double n <= n + 1.
Proof.
  intros Hn. destruct (Z.lt_ge_cases n (2 ^ 53)) as [Hlt|Hge].
  - rewrite static_cast_double_exact by lia. lia.
  - rewrite static_cast_double_near by lia.
    destruct (Z.even n); [lia|]. destruct (n mod 4 =? 1); lia.
Qed.

Lemma static_cast_double_mono (a b : Z) :
  0 <= a <= b -> b < 2 ^ 54 ->
  static_cast_double a <= static_cast_double b.
Proof.
  intros Hab Hb.
  destruct (Z.lt_ge_cases b (2 ^ 53)) as [Hlt|Hge].
  - rewrite !static_cast_double_exact by lia. lia.
  - destruct (Z.lt_ge_cases a (2 ^ 53)) as [Hlta|Hgea].
    + rewrite (static_cast_double_exact a) by lia.
      rewrite (static_cast_double_near b) by lia.
      pose proof (Zmod_even b).
      destruct (Z.even b); [lia|]. destruct (Z.eqb_spec (b mod 4) 1); [|lia].
      change (2 ^ 53) with 9007199254740992 in *.
      Z.div_mod_to_equations. lia.
    + rewrite !static_cast_double_near by lia.
      pose proof (Zmod_even a). pose proof (Zmod_even b).
      destruct (Z.even a), (Z.even b);
        destruct (Z.eqb_spec (a mod 4) 1); destruct (Z.eqb_spec (b mod 4) 1);
        Z.div_mod_to_equations; lia.
Qed.

Lemma kilobytes_as_double (bytes : Z) :
  0 <= bytes < 2 ^ 64 ->
  bytes / 1024 - 1 <= static_cast_double (Z.shiftr bytes 10)
                   <= bytes / 1024 + 1
  /\ (bytes < 2 ^ 63 ->
      static_cast_double (Z.shiftr bytes 10) = bytes / 1024
      /\ 1024 * (bytes / 1024) <= bytes < 1024 * (bytes / 1024) + 1024).
Proof.
  intros Hb. rewrite Z.shiftr_div_pow2 by lia. change (2 ^ 10) with 1024.
  assert (Hk : 0 <= bytes / 1024 < 2 ^ 54).
  { change (2 ^ 64) with (1024 * 2 ^ 54) in Hb.
    split; [apply Z.div_pos; lia|apply Z.div_lt_upper_bound; lia]. }
  split; [now apply static_cast_double_bounds|].
  intros Hlt. split.
  - apply static_cast_double_exact.
    change (2 ^ 63) with (1024 * 2 ^ 53) in Hlt.
    split; [lia|apply Z.div_lt_upper_bound; lia].
  - pose proof (Z.div_mod bytes 1024 ltac:(lia)).
    pose proof (Z.mod_pos_bound bytes 1024 ltac:(lia)). lia.
Qed.

(** X8.  The sizes [getHeapStatistics] reports are the byte counts of the
    V8 statistics in kilobytes.  For a count below [2^63] the entry is the
    count in whole kilobytes, rounded down: a number [k] with
    [1024 k <= bytes < 1024 (k + 1)].  From [2^63] on the kilobytes no
    longer fit a double's 53 bits and the entry is within one of that.
    The dictionary has these eight entries and [doesZapGarbage], in the
    order set. *)
Theorem GetHeapStatistics_kilobytes (v8_heap_stats : HeapStatistics) :
  (forall key bytes,
     In (key, bytes) (heap_sizes v8_heap_stats) -> 0 <= bytes < 2 ^ 64 ->
     exists k,
       Dictionary_Get key (GetHeapStatistics v8_heap_stats)
       = Some (V8Number k)
       /\ bytes / 1024 - 1 <= k <= bytes / 1024 + 1
       /\ (bytes < 2 ^ 63 ->
           k = bytes / 1024 /\ 1024 * k <= bytes < 1024 * k + 1024))
  /\ map fst (properties (GetHeapStatistics v8_heap_stats))
     = (map fst (heap_sizes v8_heap_stats) ++ ["doesZapGarbage"%string])%list
  /\ Dictionary_Get "doesZapGarbage" (GetHeapStatistics v8_heap_stats)
     = Some (V8Boolean (negb (does_zap_garbage v8_heap_stats =? 0))).
Proof.
  split; [|split; reflexivity].
  intros key bytes Hin Hb.
  destruct (kilobytes_as_double bytes Hb) as [Hnear Hexact].
  exists (static_cast_double (Z.shiftr bytes 10)).
  split; [|split; [exact Hnear|]].
  - simpl in Hin.
    repeat (destruct Hin as [Hin|Hin];
            [injection Hin as <- <-; reflexivity|]).
    destruct Hin.
  - intros Hlt. destruct (Hexact Hlt) as [-> Hfloor]. now split.
Qed.

Lemma GetHeapStatistics_kilobytes_witness :
  In ("usedHeapSize"%string, 5000)
     (heap_sizes (mkHeapStatistics 8192 0 8192 100000 5000 2000000 1023 2048 0))
  /\ 0 <= 5000 < 2 ^ 64
  /\ Dictionary_Get "usedHeapSize"
       (GetHeapStatistics
          (mkHeapStatistics 8192 0 8192 100000 5000 2000000 1023 2048 0))
     = Some (V8Number 4).
Proof.
  assert (Hin : In ("usedHeapSize"%string, 5000)
                   (heap_sizes (mkHeapStatistics 8192 0 8192 100000 5000
                                                 2000000 1023 2048 0)))
    by (simpl; auto 10).
  assert (Hb : 0 <= 5000 < 2 ^ 64) by (split; [discriminate|reflexivity]).
  split; [exact Hin|]. split; [exact Hb|].
  destruct (proj1 (GetHeapStatistics_kilobytes _) _ _ Hin Hb)
    as (k & Hget & _ & Hexact).
  destruct (Hexact eq_refl) as [-> _].
  exact Hget.
Defined.

(** X9.  [getBlinkMemoryInfo] keeps the order of its two totals: when no
    more is allocated than there is space, no more is reported allocated
    than total.  Below [2^63] bytes both are reported in whole kilobytes,
    rounded down. *)
Theorem GetBlinkMemoryInfo_kilobytes (allocated total : Z) :
  0 <= allocated <= total -> total < 2 ^ 64 ->
  exists ka kt,
    Dictionary_Get "allocated" (GetBlinkMemoryInfo allocated total)
    = Some (V8Number ka)
    /\ Dictionary_Get "total" (GetBlinkMemoryInfo allocated total)
       = Some (V8Number kt)
    /\ 0 <= ka <= kt
    /\ (total < 2 ^ 63 ->
        1024 * ka <= allocated < 1024 * ka + 1024
        /\ 1024 * kt <= total < 1024 * kt + 1024)
    /\ map fst (properties (GetBlinkMemoryInfo allocated total))
       = ["allocated"; "total"]%string.
Proof.
  intros Hat Ht.
  exists (static_cast_double (Z.shiftr allocated 10)),
         (static_cast_double (Z.shiftr total 10)).
  split; [reflexivity|]. split; [reflexivity|].
  split; [|split; [|reflexivity]].
  - rewrite !Z.shiftr_div_pow2 by lia. change (2 ^ 10) with 1024.
    assert (Hkt : total / 1024 < 2 ^ 54).
    { change (2 ^ 64) with (1024 * 2 ^ 54) in Ht.
      apply Z.div_lt_upper_bound; lia. }
    assert (Hka : 0 <= allocated / 1024) by (apply Z.div_pos; lia).
    assert (Hle : allocated / 1024 <= total / 1024)
      by (apply Z.div_le_mono; lia).
    split.
    + change 0 with (static_cast_double 0) at 1.
      apply static_cast_double_mono; lia.
    + apply static_cast_double_mono; lia.
  - intros Hlt.
    destruct (kilobytes_as_double allocated ltac:(lia)) as [_ Ha].
    destruct (kilobytes_as_double total ltac:(lia)) as [_ Hb].
    destruct (Ha ltac:(lia)) as [-> Hfa]. destruct (Hb Hlt) as [-> Hfb].
    now split.
Qed.

Lemma GetBlinkMemoryInfo_kilobytes_witness :
  0 <= 1023 <= 1024 /\ 1024 < 2 ^ 64
  /\ Dictionary_Get "allocated" (GetBlinkMemoryInfo 1023 1024)
     = Some (V8Number 0)
  /\ Dictionary_Get "total" (GetBlinkMemoryInfo 1023 1024)
     = Some (V8Number 1).
Proof.
  assert (H : 0 <= 1023 <= 1024) by (split; discriminate).
  assert (H' : 1024 < 2 ^ 64) by reflexivity.
  split; [exact H|]. split; [exact H'|].
  destruct (GetBlinkMemoryInfo_kilobytes 1023 1024 H H')
    as (ka & kt & Ha & Ht & Hk & Hexact & _).
  destruct (Hexact eq_refl) as [Hba Hbt].
  assert (ka = 0) as -> by lia.
  assert (kt = 1) as -> by lia.
  split; assumption.
Defined.

(** The rounding shows where the kilobytes pass [2^53]: of [2^63 + 1024]
    bytes, which are [2^53 + 1] kilobytes, [2^53] are reported. *)
Example GetBlinkMemoryInfo_rounds :
  Dictionary_Get "total" (GetBlinkMemoryInfo 0 (2 ^ 63 + 1024))
  = Some (V8Number (2 ^ 53)).
Proof. reflexivity. Qed.

End Kilobytes.

(** * Further properties of the shell glue *)

Import External.

Lemma ShortcutOperation_FromV8_string_cases (s : string)
    (out : ShortcutOperation) :
  FromV8 (V8String s) out = (false, out)
  \/ (fst (FromV8 (V8String s) out) = true
      /\ (s = EmptyString \/ s = "create"%string \/ s = "update"%string
          \/ s = "replace"%string)).
Proof.
  unfold FromV8, Converter_ShortcutOperation, FromV8, Converter_string. simpl.
  destruct (String.length s =? 0) eqn:Hlen; simpl.
  - right. apply length_zero_empty in Hlen. auto.
  - destruct (String.eqb_spec s "create"); simpl; [right; auto|].
    destruct (String.eqb_spec s "update"); simpl; [right; auto|].
    destruct (String.eqb_spec s "replace"); simpl; [right; auto 6|].
    now left.
Qed.

(** X10.  On any value, string or not, the [ShortcutOperation] converter
    leaves [out] as it was whenever it answers false, and it answers true
    only for a string, one of the four it knows; a value that is not a
    string is always refused. *)
Theorem ShortcutOperation_FromV8_refusal (val : V8Value)
    (out : ShortcutOperation) :
  (fst (FromV8 val out) = false -> snd (FromV8 val out) = out)
  /\ (fst (FromV8 val out) = true ->
      exists s, val = V8String s
                /\ (s = EmptyString \/ s = "create"%string
                    \/ s = "update"%string \/ s = "replace"%string))
  /\ ((forall s, val <> V8String s) -> FromV8 val out = (false, out)).
Proof.
  destruct val as [| |b|n|s|];
    try (split; [intros _; reflexivity
                |split; [intros H; discriminate H|intros _; reflexivity]]).
  destruct (ShortcutOperation_FromV8_string_cases s out) as [E|[Hok Hs]].
  - rewrite E. simpl. split; [reflexivity|]. split; [discriminate|].
    intros H. now contradiction (H s).
  - rewrite Hok. split; [discriminate|]. split; [eauto|].
    intros H. now contradiction (H s).
Qed.

Lemma ShortcutOperation_FromV8_refusal_witness :
  fst (FromV8 (V8Number 1) SHORTCUT_REPLACE_EXISTING) = false
  /\ snd (FromV8 (V8Number 1) SHORTCUT_REPLACE_EXISTING)
     = SHORTCUT_REPLACE_EXISTING.
Proof.
  assert (H : fst (FromV8 (V8Number 1) SHORTCUT_REPLACE_EXISTING) = false)
    by reflexivity.
  split; [exact H|].
  exact (proj1 (ShortcutOperation_FromV8_refusal _ _) H).
Defined.

(** X11.  [MoveItemToTrash] always reaches the platform's trash
    operation, whatever it is called with.  The path is converted from the
    first argument and stays the empty path when there is none (and is
    whatever the converter left when it refused); the flag is the truth
    value of the second argument, [false] when there is none; arguments
    after the second are not looked at. *)
Theorem MoveItemToTrash_any_arguments (FilePath : Type)
    (empty_path : FilePath) (Converter_FilePath : Converter FilePath)
    (platform_util_MoveItemToTrash : FilePath -> bool -> bool)
    (vals : list V8Value) :
  MoveItemToTrash empty_path platform_util_MoveItemToTrash (call_with vals)
  = platform_util_MoveItemToTrash
      match vals with
      | [] => empty_path
      | path :: _ => snd (FromV8 path empty_path)
      end
      match vals with
      | _ :: flag :: _ => BooleanValue flag
      | _ => false
      end.
Proof.
  destruct vals as [|path [|flag rest]];
    unfold MoveItemToTrash, GetNext, call_with; simpl;
    try reflexivity;
    now destruct (FromV8 path empty_path).
Qed.

Lemma c_str_no_nul (s : string) :
  ~ In Ascii.zero (list_ascii_of_string s) -> c_str s = s.
Proof.
  induction s as [|c t IH]; simpl; [reflexivity|]. intros Hin.
  destruct (Ascii.eqb_spec c Ascii.zero) as [->|Hne].
  - exfalso. apply Hin. now left.
  - f_equal. apply IH. intros H. apply Hin. now right.
Qed.

(** X12.  [OpenExternal] passes the url on unchanged.  The options are the
    default-constructed ones when the call has fewer than two arguments,
    and also when its second argument does not convert to a dictionary.
    The promise is resolved when the platform finishes with an empty error
    string and rejected when the string is not empty; the rejection
    message is the error read as a C string, so the whole error when it
    holds no NUL byte and nothing of it when it starts with one.  No call
    is made on the promise while the platform has not finished. *)
Theorem OpenExternal_defaults_and_outcome (GURL FilePath Dictionary : Type)
    (Converter_FilePath : Converter FilePath)
    (Converter_Dictionary : Converter Dictionary)
    (Dictionary_Get :
       forall T : Type, Converter T -> Dictionary -> string -> T -> bool * T)
    (null_dictionary : Dictionary)
    (default_options : OpenExternalOptions FilePath)
    (url : GURL) (vals : list V8Value) (error : string) :
  let args := mkArguments vals 1 false in
  let request :=
    OpenExternal_request Dictionary_Get null_dictionary default_options
                         url args in
  fst request = url
  /\ (length vals < 2 -> request = (url, default_options))
  /\ (fst (FromV8 (nth 1 vals V8Undefined) null_dictionary) = false ->
      request = (url, default_options))
  /\ OpenExternal Dictionary_Get null_dictionary default_options
                  url args None
     = (request, [])
  /\ OpenExternal Dictionary_Get null_dictionary default_options
                  url args (Some EmptyString)
     = (request, [Resolve tt])
  /\ (error <> EmptyString ->
      OpenExternal Dictionary_Get null_dictionary default_options
                   url args (Some error)
      = (request, [RejectWithErrorMessage (c_str error)]))
  /\ (error <> EmptyString ->
      ~ In Ascii.zero (list_ascii_of_string error) ->
      OpenExternal Dictionary_Get null_dictionary default_options
                   url args (Some error)
      = (request, [RejectWithErrorMessage error]))
  /\ OpenExternal Dictionary_Get null_dictionary default_options
                  url args (Some (String Ascii.zero error))
     = (request, [RejectWithErrorMessage EmptyString]).
Proof.
  intros args request. subst args request.
  assert (Hreject :
    error <> EmptyString ->
    OpenExternal Dictionary_Get null_dictionary default_options
                 url (mkArguments vals 1 false) (Some error)
    = (OpenExternal_request Dictionary_Get null_dictionary default_options
                            url (mkArguments vals 1 false),
       [RejectWithErrorMessage (c_str error)])).
  { intros Herr. unfold OpenExternal, OnOpenExternalFinished.
    destruct error; [congruence|reflexivity]. }
  split; [reflexivity|]. split.
  { intros Hlen. unfold OpenExternal_request, GetNext.
    destruct vals as [|u [|v rest]]; simpl in *; try reflexivity. lia. }
  split.
  { intros Hconv. unfold OpenExternal_request, GetNext.
    destruct vals as [|u [|v rest]]; simpl in *; try reflexivity.
    destruct (FromV8 v null_dictionary) as [ok obj]. simpl in Hconv.
    now subst ok. }
  split; [reflexivity|]. split; [reflexivity|].
  split; [exact Hreject|]. split; [|reflexivity].
  intros Herr Hnul. rewrite Hreject by assumption.
  now rewrite c_str_no_nul.
Qed.

Example OnOpenExternalFinished_cuts_at_nul :
  OnOpenExternalFinished [] (String "n" (String "o" (String Ascii.zero
                                (String "x" EmptyString))))
  = [RejectWithErrorMessage "no"].
Proof. reflexivity. Qed.
